(** * Diachronic word-embedding alignment: a shallow embedding

    This development embeds the core of [backend/app/models/word2vec.py]
    (class [ModelManager]) and of the training endpoints in
    [backend/app/api/v1/endpoints/word2vec.py], and states the properties of
    the natural-language specification over that embedding.

    Conventions.
    - A Python [str] is a [string] of 8-bit code points (Latin-1 range).
    - A Python [dict] whose iteration order is observed is an association
      list in insertion order with distinct keys ([dict_set], [dict_get]);
      the vocabulary of a gensim model, whose order is never observed, is
      a [gmap].
    - gensim models are mutable objects shared by reference: they live in
      the [heap] of the state, addressed by a number, and a
      [Word2VecModel] wrapper holds that number.
    - numpy scalars are an abstract carrier with its operations
      ([Float64]); no algebraic law is assumed, so rounding is neither
      modelled nor relied upon.
    - gensim, CADE and [numpy.linalg.svd] are external: they appear as the
      fields of [Library]; a field of option type returns [None] where the
      call raises.
    - Logging, progress messages and timing are not part of the state, and
      a write to disk succeeds unless a function takes a flag saying
      otherwise. *)

From Stdlib Require Import Ascii String QArith.
From stdpp Require Import gmap strings list fin_maps sorting.

Set Default Proof Using "Type*".
Local Open Scope nat_scope.

(** ** Tokenizer: [ModelManager._preprocess_texts] *)

Module Tokenizer.

Definition code (c : ascii) : nat := nat_of_ascii c.

(** [str.lower] on code points below 256: A-Z and the Latin-1 capitals
    (0xC0-0xDE except the multiplication sign 0xD7) move up by 32. *)
Definition is_upper (c : ascii) : bool :=
  let n := code c in
  ((65 <=? n) && (n <=? 90)) || ((192 <=? n) && (n <=? 222) && negb (n =? 215)).

Definition lower_char (c : ascii) : ascii :=
  if is_upper c then ascii_of_nat (code c + 32) else c.

Fixpoint lower (s : string) : string :=
  match s with
  | EmptyString => EmptyString
  | String c s' => String (lower_char c) (lower s')
  end.

(** The separators of [str.split()] without argument, below 256:
    0x09-0x0D, 0x1C-0x20, 0x85 and 0xA0. *)
Definition is_space (c : ascii) : bool :=
  let n := code c in
  ((9 <=? n) && (n <=? 13)) || ((28 <=? n) && (n <=? 32)) || (n =? 133) || (n =? 160).

Definition is_empty (s : string) : bool :=
  match s with EmptyString => true | String _ _ => false end.

(** [split_from cur s]: [cur] is the token being read. Runs of separators
    produce no empty token. *)
Fixpoint split_from (cur : string) (s : string) : list string :=
  match s with
  | EmptyString => if is_empty cur then [] else [cur]
  | String c s' =>
      if is_space c
      then (if is_empty cur then split_from EmptyString s'
            else cur :: split_from EmptyString s')
      else split_from (cur +:+ String c EmptyString) s'
  end.

Definition split (s : string) : list string := split_from EmptyString s.

Fixpoint mem (c : ascii) (chars : string) : bool :=
  match chars with
  | EmptyString => false
  | String d chars' => if Ascii.eqb c d then true else mem c chars'
  end.

Fixpoint lstrip (chars : string) (s : string) : string :=
  match s with
  | EmptyString => EmptyString
  | String c s' => if mem c chars then lstrip chars s' else s
  end.

Fixpoint rstrip (chars : string) (s : string) : string :=
  match s with
  | EmptyString => EmptyString
  | String c s' =>
      let r := rstrip chars s' in
      if is_empty r && mem c chars then EmptyString else String c r
  end.

Definition strip (chars : string) (s : string) : string :=
  rstrip chars (lstrip chars s).

(** The argument of [token.strip(...)] in the source:
    [.,!?;:()[]{}] followed by the double quote (34), the single quote
    and the hyphen. *)
Definition PUNCT : string :=
  ".,!?;:()[]{}" +:+ String (ascii_of_nat 34) "'-".

Definition _preprocess_texts (texts : list string) : list (list string) :=
  foldl
    (fun processed text =>
       let tokens := split (lower text) in
       let tokens :=
         map (strip PUNCT) (filter (fun token => 2 < String.length token) tokens) in
       match tokens with
       | [] => processed
       | _ :: _ => processed ++ [tokens]
       end)
    [] texts.

(** The sentence one document contributes (the comprehension inside the
    loop of [_preprocess_texts]). *)
Definition sentence_of (text : string) : list string :=
  map (strip PUNCT) (filter (fun token => 2 < String.length token) (split (lower text))).


Fixpoint all_chars (p : ascii -> bool) (s : string) : bool :=
  match s with
  | EmptyString => true
  | String c s' => p c && all_chars p s'
  end.


End Tokenizer.

(** ** Scalars and the external libraries *)

(** numpy's float64 with the operations the source uses. [fle] is the
    comparison used to state the range of a cosine. *)
Class Float64 (F : Type) := {
  fzero : F;
  fone : F;
  fadd : F -> F -> F;
  fsub : F -> F -> F;
  fmul : F -> F -> F;
  fdiv : F -> F -> F;
  fopp : F -> F;
  of_nat : nat -> F;
  fle : F -> F -> bool
}.

(** A gensim [Word2Vec] object: [wv] maps each vocabulary word to its
    vector, so [wv.vocab] is [dom wv]; [wv[word] = v] is an insertion. *)
Record Word2Vec (F : Type) := {
  wv : gmap string (list F);
  vector_size : nat
}.
Arguments wv {F} _.
Arguments vector_size {F} _.

(** Training hyperparameters, as passed along by the endpoint. *)
Record Params := {
  p_vector_dim : nat;
  p_window : nat;
  p_min_count : nat;
  p_epochs : nat
}.

(** What the repository imports and does not define. [None] stands for a
    raised exception, and so does [false] for [CADE_train_compass], whose
    result the source does not use.
    - [linalg_svd]: [numpy.linalg.svd], returning [(U, S, Vt)];
    - [cosine]: the value gensim's [wv.similarity] computes from the two
      stored vectors;
    - [gensim_fit]: [Word2Vec(sentences=..., size, window, min_count, ...)]
      followed by the per-epoch [model.train] calls of [train_model];
    - [CADE_AVAILABLE]: whether [from cade.cade import CADE] succeeded;
    - [CADE_train_compass], [CADE_train_slice]: the two CADE calls of
      [train_cade], given the text of the file they read. *)
Class Library (F : Type) := {
  linalg_svd : list (list F) -> option (list (list F) * list F * list (list F));
  cosine : list F -> list F -> F;
  gensim_fit : list (list string) -> Params -> option (Word2Vec F);
  CADE_AVAILABLE : bool;
  CADE_train_compass : Params -> string -> bool;
  CADE_train_slice : Params -> string -> string -> option (Word2Vec F)
}.

(** ** numpy on two-dimensional arrays

    A matrix is the list of its rows. Arrays are rectangular and have at
    least one row and one column wherever a shape is observed. A shape
    mismatch raises [ValueError] in numpy: [None] here. *)

Section Numpy.
Context {F : Type} {FO : Float64 F}.

Definition nrows (m : list (list F)) : nat := length m.

Definition ncols (m : list (list F)) : nat :=
  match m with
  | [] => 0
  | r :: _ => length r
  end.

Definition entry (m : list (list F)) (i j : nat) : F :=
  nth j (nth i m []) fzero.

Definition column (j : nat) (m : list (list F)) : list F :=
  map (fun row => nth j row fzero) m.

(** [m.T] *)
Definition transpose (m : list (list F)) : list (list F) :=
  map (fun j => column j m) (seq 0 (ncols m)).

Definition vsum (v : list F) : F := foldl fadd fzero v.

(** [np.mean(m, axis=0)] *)
Definition mean_axis0 (m : list (list F)) : list F :=
  map (fun j => fdiv (vsum (column j m)) (of_nat (nrows m))) (seq 0 (ncols m)).

(** [m - v], the row [v] broadcast over the rows of [m]; in the source
    [v] is always the mean of [m] itself. *)
Definition sub_rows (m : list (list F)) (v : list F) : list (list F) :=
  map (fun row => zip_with fsub row v) m.

(** [m + v] with broadcasting. *)
Definition add_rows (m : list (list F)) (v : list F) : option (list (list F)) :=
  if decide (ncols m = length v)
  then Some (map (fun row => zip_with fadd row v) m)
  else None.

Definition dot (u v : list F) : F := vsum (zip_with fmul u v).

(** [a @ b] *)
Definition matmul (a b : list (list F)) : option (list (list F)) :=
  if decide (ncols a = nrows b)
  then Some (map (fun row => map (fun j => dot row (column j b)) (seq 0 (ncols b))) a)
  else None.

Definition shape (m : list (list F)) (n d : nat) : Prop :=
  length m = n /\ Forall (fun r => length r = d) m.

End Numpy.

(** ** [ModelManager._procrustes_align] *)

Section Procrustes.
Context {F : Type} {FO : Float64 F} {LIB : Library F}.

Definition _procrustes_align (source target : list (list F)) : option (list (list F)) :=
  let source_centered := sub_rows source (mean_axis0 source) in
  let target_centered := sub_rows target (mean_axis0 target) in
  g ← matmul (transpose target_centered) source_centered;
  '(U, _, Vt) ← linalg_svd g;
  R ← matmul U Vt;
  a ← matmul source_centered (transpose R);
  add_rows a (mean_axis0 target).

(** The same computation in the words of the specification, entry by
    entry: [gram] is [target_centered^T . source_centered], [rotation] is
    [U . Vt], and row [i] of the result is
    [source_centered_i . R^T + mean(target)]. *)
Definition spec_centered (m : list (list F)) (n d : nat) : list (list F) :=
  map (fun i => map (fun k =>
        fsub (entry m i k)
             (fdiv (vsum (map (fun i' => entry m i' k) (seq 0 n))) (of_nat n)))
        (seq 0 d)) (seq 0 n).

Definition spec_gram (source target : list (list F)) (n d : nat) : list (list F) :=
  map (fun a => map (fun b =>
        dot (map (fun i => entry (spec_centered target n d) i a) (seq 0 n))
            (map (fun i => entry (spec_centered source n d) i b) (seq 0 n)))
        (seq 0 d)) (seq 0 d).

Definition spec_rotation (U Vt : list (list F)) (d : nat) : list (list F) :=
  map (fun j => map (fun k =>
        dot (nth j U []) (map (fun l => entry Vt l k) (seq 0 d)))
        (seq 0 d)) (seq 0 d).

Definition spec_aligned (source target U Vt : list (list F)) (n d : nat) : list (list F) :=
  map (fun i => map (fun j =>
        fadd (dot (nth i (spec_centered source n d) [])
                  (nth j (spec_rotation U Vt d) []))
             (fdiv (vsum (map (fun i' => entry target i' j) (seq 0 n))) (of_nat n)))
        (seq 0 d)) (seq 0 n).

End Procrustes.

(** ** Insertion-ordered dictionaries *)

Section Odict.
Context {V : Type}.

(** [d[k] = v]: an existing key keeps its position, a new key goes last. *)
Fixpoint dict_set (k : string) (v : V) (d : list (string * V)) : list (string * V) :=
  match d with
  | [] => [(k, v)]
  | (k', v') :: d' =>
      if decide (k = k') then (k, v) :: d' else (k', v') :: dict_set k v d'
  end.

Fixpoint dict_get (k : string) (d : list (string * V)) : option V :=
  match d with
  | [] => None
  | (k', v') :: d' => if decide (k = k') then Some v' else dict_get k d'
  end.

Definition dict_keys (d : list (string * V)) : list string := map fst d.

End Odict.

(** ** The model registry: [Word2VecModel] and [ModelManager] *)

(** The wrapper class. [model] is a reference to the gensim object;
    [vector_dim] and [vocab_size] are read once, in [__init__]. *)
Record Word2VecModel := {
  index : string;
  model : nat;
  created_at : nat;
  vector_dim : nat;
  vocab_size : nat
}.

(** The state the manager works on: its own fields [models] and
    [reference_index], the object store holding the gensim models, the
    regular files on disk (path to text; the bytes of a pickled or saved
    model are not modelled and stand as the empty text) and the wall clock.
    [models_dir] is the default, [models]. *)
Record State (F : Type) := {
  models : list (string * Word2VecModel);
  reference_index : option string;
  heap : gmap nat (Word2Vec F);
  files : gmap string string;
  clock : nat
}.
Arguments models {F} _.
Arguments reference_index {F} _.
Arguments heap {F} _.
Arguments files {F} _.
Arguments clock {F} _.

Section Manager.
Context {F : Type} {FO : Float64 F} {LIB : Library F}.

Definition set_models (ms : list (string * Word2VecModel)) (st : State F) : State F :=
  {| models := ms; reference_index := reference_index st; heap := heap st;
     files := files st; clock := clock st |}.

Definition set_reference_index (r : option string) (st : State F) : State F :=
  {| models := models st; reference_index := r; heap := heap st;
     files := files st; clock := clock st |}.

Definition set_heap (h : gmap nat (Word2Vec F)) (st : State F) : State F :=
  {| models := models st; reference_index := reference_index st; heap := h;
     files := files st; clock := clock st |}.

Definition set_files (fs : gmap string string) (st : State F) : State F :=
  {| models := models st; reference_index := reference_index st; heap := heap st;
     files := fs; clock := clock st |}.

(** [Word2VecModel.__init__] *)
Definition Word2VecModel_init (h : gmap nat (Word2Vec F))
    (idx : string) (l : nat) (created : nat) : option Word2VecModel :=
  g ← h !! l;
  Some {| index := idx; model := l; created_at := created;
          vector_dim := vector_size g; vocab_size := size (wv g) |}.

(** [Word2VecModel.get_word_vector]: [None] on [KeyError]. *)
Definition get_word_vector (h : gmap nat (Word2Vec F))
    (m : Word2VecModel) (word : string) : option (list F) :=
  g ← h !! model m; wv g !! word.

(** [model.wv.vocab] as a set of words. *)
Definition vocab (h : gmap nat (Word2Vec F)) (m : Word2VecModel) : gset string :=
  match h !! model m with
  | Some g => dom (wv g)
  | None => ∅
  end.

(** [m.model.wv[word] = v]: the gensim object itself is updated. *)
Definition wv_setitem (h : gmap nat (Word2Vec F))
    (l : nat) (word : string) (v : list F) : gmap nat (Word2Vec F) :=
  match h !! l with
  | Some g => <[l := {| wv := <[word := v]> (wv g); vector_size := vector_size g |}]> h
  | None => h
  end.

(** [_save_model]: one pickle per index under [models_dir]. *)
Definition model_path (idx : string) : string := "models/word2vec_" +:+ idx +:+ ".pkl".

Definition _save_model (idx : string) (st : State F) : State F :=
  set_files (<[model_path idx := EmptyString]> (files st)) st.

(** [train_model]. The result is [None] when gensim raises (for instance
    on an empty vocabulary); the registry is then untouched. Progress
    messages and logging are not part of the state. *)
Definition train_model (idx : string) (texts : list string) (ps : Params)
    (st : State F) : State F * option Word2VecModel :=
  let processed_texts := Tokenizer._preprocess_texts texts in
  match gensim_fit processed_texts ps with
  | None => (st, None)
  | Some g =>
      let l := fresh (dom (heap st)) in
      let word2vec_model :=
        {| index := idx; model := l; created_at := clock st;
           vector_dim := vector_size g; vocab_size := size (wv g) |} in
      let st := set_heap (<[l := g]> (heap st)) st in
      let st := set_models (dict_set idx word2vec_model (models st)) st in
      let st := _save_model idx st in
      (st, Some word2vec_model)
  end.

(** [sorted(...)] on strings: code-point order. *)
Definition str_le (a b : string) : Prop := String.leb a b = true.

Global Instance str_le_dec (a b : string) : Decision (str_le a b).
Proof. unfold str_le. apply _. Defined.

(** [_get_common_vocabulary] *)
Definition _get_common_vocabulary (st : State F) : list string :=
  match models st with
  | [] => []
  | (_, m) :: rest =>
      let common_vocab :=
        foldl (fun acc kv => acc ∩ vocab (heap st) (snd kv)) (vocab (heap st) m) rest in
      merge_sort str_le (elements common_vocab)
  end.

(** The two lists built by the first loop of [_align_single_model]: a word
    contributes a row only when both models know it. *)
Fixpoint gather_vectors (h : gmap nat (Word2Vec F))
    (source_model target_model : Word2VecModel) (common_words : list string)
    : list (list F) * list (list F) :=
  match common_words with
  | [] => ([], [])
  | word :: rest =>
      let '(source_vectors, target_vectors) :=
        gather_vectors h source_model target_model rest in
      match get_word_vector h source_model word, get_word_vector h target_model word with
      | Some source_vec, Some target_vec =>
          (source_vec :: source_vectors, target_vec :: target_vectors)
      | _, _ => (source_vectors, target_vectors)
      end
  end.

(** The last loop of [_align_single_model]:
    [for i, word in enumerate(common_words): if i < len(aligned_vectors): ...] *)
Fixpoint write_aligned (h : gmap nat (Word2Vec F)) (l : nat)
    (i : nat) (common_words : list string) (aligned_vectors : list (list F))
    : gmap nat (Word2Vec F) :=
  match common_words with
  | [] => h
  | word :: rest =>
      let h' :=
        match aligned_vectors !! i with
        | Some v => wv_setitem h l word v
        | None => h
        end in
      write_aligned h' l (S i) rest aligned_vectors
  end.

(** [_align_single_model]. The result is the store after the call and the
    returned wrapper; [None] is returned below 10 anchor rows and when
    anything raises. *)
Definition _align_single_model (h : gmap nat (Word2Vec F))
    (source_model target_model : Word2VecModel) (common_words : list string)
    : gmap nat (Word2Vec F) * option Word2VecModel :=
  let '(source_vectors, target_vectors) :=
    gather_vectors h source_model target_model common_words in
  if decide (length source_vectors < 10) then (h, None)
  else
    match _procrustes_align source_vectors target_vectors with
    | None => (h, None)
    | Some aligned_vectors =>
        match Word2VecModel_init h (index source_model) (model source_model)
                (created_at source_model) with
        | None => (h, None)
        | Some aligned_model =>
            (write_aligned h (model aligned_model) 0 common_words aligned_vectors,
             Some aligned_model)
        end
    end.

(** The loop state of [align_models]: the manager state, the local
    dictionary [aligned_models] and the counter. *)
Definition align_step (reference_index : string) (reference_model : Word2VecModel)
    (common_words : list string)
    (acc : State F * list (string * Word2VecModel) * nat)
    (item : string * Word2VecModel)
    : State F * list (string * Word2VecModel) * nat :=
  let '(st, aligned_models, successful_alignments) := acc in
  let '(idx, m) := item in
  if decide (idx = reference_index)
  then (st, dict_set idx m aligned_models, successful_alignments)
  else
    match _align_single_model (heap st) m reference_model common_words with
    | (h', Some aligned_model) =>
        (set_models (dict_set idx aligned_model (models st)) (set_heap h' st),
         dict_set idx aligned_model aligned_models,
         S successful_alignments)
    | (h', None) => (set_heap h' st, aligned_models, successful_alignments)
    end.

(** [align_models], returning also the local [aligned_models], which the
    source builds and then leaves unused. *)
Definition align_models_loop (reference_index : string) (st : State F)
    : State F * list (string * Word2VecModel) * bool :=
  match dict_get reference_index (models st) with
  | None => (st, [], false)
  | Some reference_model =>
      let st := set_reference_index (Some reference_index) st in
      let common_words := _get_common_vocabulary st in
      let '(st', aligned_models, _) :=
        foldl (align_step reference_index reference_model common_words)
              (st, [], 0) (models st) in
      (st', aligned_models, true)
  end.

Definition align_models (reference_index : string) (st : State F) : State F * bool :=
  let '(st', _, ok) := align_models_loop reference_index st in (st', ok).

(** [train_procrustes] *)
Definition train_step (ps : Params) (acc : State F * nat)
    (item : string * list string) : State F * nat :=
  let '(st, successful_models) := acc in
  let '(idx, texts) := item in
  match train_model idx texts ps st with
  | (st', Some _) => (st', S successful_models)
  | (st', None) => (st', successful_models)
  end.

Definition train_procrustes (papers_by_index : list (string * list string))
    (ps : Params) (st : State F) : State F * bool :=
  let '(st, successful_models) := foldl (train_step ps) (st, 0) papers_by_index in
  if decide (1 < length (models st)) then
    match dict_keys (models st) with
    | reference_index :: _ =>
        let '(st', success) := align_models reference_index st in
        if success then (st', bool_decide (0 < successful_models)) else (st', false)
    | [] => (st, false)
    end
  else (st, bool_decide (0 < successful_models)).

(** *** Compass training: [train_cade] *)

Definition NL : string := String (ascii_of_nat 10) EmptyString.

Definition slice_path (idx : string) : string := "temp/cade_" +:+ idx +:+ ".txt".
Definition compass_path : string := "temp/compass.txt".
Definition cade_model_path (idx : string) : string := "model/cade_" +:+ idx +:+ ".model".

(** [shutil.rmtree(dir)]: every file below [dir] goes. *)
Definition under (dir : string) (path : string) : bool := String.prefix (dir +:+ "/") path.

Definition rmtree (dir : string) (fs : gmap string string) : gmap string string :=
  filter (fun kv => under dir (fst kv) = false) fs.

(** Step 1 of [train_cade]: one corpus file per index; [slice_files] and
    [compass_texts] are the two locals. *)
Definition slice_text_of (texts : list string) : string :=
  let processed_texts := Tokenizer._preprocess_texts texts in
  String.concat NL (map (String.concat " ") processed_texts).

Definition slice_step (acc : State F * list (string * string) * list string)
    (item : string * list string) : State F * list (string * string) * list string :=
  let '(st, slice_files, compass_texts) := acc in
  let '(idx, texts) := item in
  let slice_text := slice_text_of texts in
  let slice_file := slice_path idx in
  (set_files (<[slice_file := slice_text]> (files st)) st,
   dict_set idx slice_file slice_files,
   compass_texts ++ [slice_text]).

(** Step 4 of [train_cade]: a slice whose training raises is skipped. *)
Definition cade_slice_step (ps : Params) (compass_text : string)
    (acc : State F * nat) (item : string * string) : State F * nat :=
  let '(st, successful_slices) := acc in
  let '(idx, slice_file) := item in
  match files st !! slice_file ≫= CADE_train_slice ps compass_text with
  | None => (st, successful_slices)
  | Some slice_model =>
      let l := fresh (dom (heap st)) in
      let st := set_files (<[cade_model_path idx := EmptyString]> (files st)) st in
      let word2vec_model :=
        {| index := idx; model := l; created_at := clock st;
           vector_dim := vector_size slice_model;
           vocab_size := size (wv slice_model) |} in
      let st := set_heap (<[l := slice_model]> (heap st)) st in
      let st := set_models (dict_set idx word2vec_model (models st)) st in
      (st, S successful_slices)
  end.

(** [train_cade]. The outer [except] returns [False] from wherever the
    exception left the state; [shutil.rmtree(temp_dir)] is the statement
    after the slice loop. *)
Definition train_cade (papers_by_index : list (string * list string))
    (ps : Params) (st : State F) : State F * bool :=
  if negb CADE_AVAILABLE then (st, false)
  else
    let '(st, slice_files, compass_texts) :=
      foldl slice_step (st, [], []) papers_by_index in
    let compass_text := String.concat NL compass_texts in
    let st := set_files (<[compass_path := compass_text]> (files st)) st in
    if negb (CADE_train_compass ps compass_text) then (st, false)
    else
      let '(st, successful_slices) :=
        foldl (cade_slice_step ps compass_text) (st, 0) slice_files in
      let st := set_files (rmtree "temp" (files st)) st in
      (st, bool_decide (0 < successful_slices)).

(** The text written to the compass file: the slice texts joined by
    newlines, in input order. *)
Definition compass_text_of (papers_by_index : list (string * list string)) : string :=
  String.concat NL (map (fun item => slice_text_of (snd item)) papers_by_index).

(** *** [clear_models]

    [fs_raises] tells whether a filesystem call inside the [try] raises;
    the in-memory clearing precedes it. *)
Definition clear_models (fs_raises : bool) (st : State F) : State F * bool :=
  let st := set_reference_index None (set_models [] st) in
  if fs_raises then (st, false)
  else (set_files (rmtree "model" (rmtree "models" (files st))) st, true).

End Manager.

(** ** Queries: [calculate_cosine_similarities] *)

Record RelatedTerm := {
  rt_id : nat;
  rt_term : string
}.

Record Topic := {
  t_id : nat;
  t_name : string;
  t_related_terms : list RelatedTerm
}.

Record SimRecord (F : Type) := {
  main_topic : string;
  related_term : string;
  sim_index : string;
  similarity : option F;
  topic_id : nat;
  term_id : nat
}.
Arguments main_topic {F} _.
Arguments related_term {F} _.
Arguments sim_index {F} _.
Arguments similarity {F} _.
Arguments topic_id {F} _.
Arguments term_id {F} _.

Section Queries.
Context {F : Type} {FO : Float64 F} {LIB : Library F}.

(** gensim's [wv.similarity(w1, w2)]: [KeyError] when a word is unknown. *)
Definition wv_similarity (g : Word2Vec F) (w1 w2 : string) : option F :=
  v1 ← wv g !! w1; v2 ← wv g !! w2; Some (cosine v1 v2).

(** The body of the innermost loop: the value stored under [similarity].
    Both the [else] branch and the [except] branch store [None]. *)
Definition similarity_value (st : State F) (main_topic term_name idx : string) : option F :=
  match dict_get idx (models st) with
  | None => None
  | Some m =>
      match heap st !! model m with
      | None => None
      | Some g =>
          if bool_decide (main_topic ∈ dom (wv g)) && bool_decide (term_name ∈ dom (wv g))
          then wv_similarity g main_topic term_name
          else None
      end
  end.

Definition similarity_record (st : State F) (topic_data : Topic)
    (related : RelatedTerm) (idx : string) : SimRecord F :=
  {| main_topic := t_name topic_data;
     related_term := rt_term related;
     sim_index := idx;
     similarity := similarity_value st (t_name topic_data) (rt_term related) idx;
     topic_id := t_id topic_data;
     term_id := rt_id related |}.

Definition calculate_cosine_similarities (st : State F) (topics_with_terms : list Topic)
    : list (SimRecord F) :=
  match models st with
  | [] => []
  | _ :: _ =>
      foldl (fun similarity_data topic_data =>
        foldl (fun similarity_data related =>
          foldl (fun similarity_data idx =>
                   similarity_data ++ [similarity_record st topic_data related idx])
                similarity_data (dict_keys (models st)))
          similarity_data (t_related_terms topic_data))
        [] topics_with_terms
  end.



End Queries.

(** ** The HTTP endpoints of [endpoints/word2vec.py] *)

Record Paper := {
  paper_index : string;
  paper_text : string
}.

Record Progress := {
  current_step : string;
  total_steps : nat;
  current_step_number : nat;
  progress_message : string
}.

(** An entry of the global [training_status]. The timing fields and the
    messages that embed elapsed times are left out. *)
Record Status := {
  status : string;
  progress : Progress;
  error : option string
}.

(** The arguments handed to [background_tasks.add_task]. *)
Record Task := {
  task_papers : list (string * list string);
  task_method : string;
  task_params : Params;
  task_session : string
}.

Inductive Response :=
| HTTPException (status_code : nat) (detail : string)
| TrainingStarted (indexes : list string) (session_id : string) (alignment_method : string)
| ModelsCleared (message : string) (models_cleared : bool).

(** The module globals [model_manager] and [training_status], and the
    tasks FastAPI has queued to run after the response is sent. *)
Record App (F : Type) := {
  model_manager : State F;
  training_status : gmap string Status;
  background_tasks : list Task
}.
Arguments model_manager {F} _.
Arguments training_status {F} _.
Arguments background_tasks {F} _.

Section Endpoints.
Context {F : Type} {FO : Float64 F} {LIB : Library F}.

(** The grouping loop of [train_models]. *)
Definition group_papers (papers : list Paper) : list (string * list string) :=
  foldl (fun papers_by_index paper =>
           match dict_get (paper_index paper) papers_by_index with
           | None => dict_set (paper_index paper) [paper_text paper] papers_by_index
           | Some texts =>
               dict_set (paper_index paper) (texts ++ [paper_text paper]) papers_by_index
           end)
        [] papers.

Definition initial_status : Status :=
  {| status := "running";
     progress := {| current_step := "initializing"; total_steps := 4;
                    current_step_number := 0;
                    progress_message := "Initializing training process" |};
     error := None |}.

(** POST [/train-models]. The only checks before the task is queued are
    the method name and the presence of papers. *)
Definition train_models (ps : Params) (alignment_method : string)
    (papers : list Paper) (session_id : string) (app : App F) : App F * Response :=
  if negb (bool_decide (alignment_method ∈ ["procrustes"; "compass"]))
  then (app, HTTPException 400 "Alignment method must be 'procrustes' or 'compass'")
  else
    match papers with
    | [] => (app, HTTPException 400 "No data found. Please upload data first.")
    | _ :: _ =>
        let papers_by_index := group_papers papers in
        let task := {| task_papers := papers_by_index; task_method := alignment_method;
                       task_params := ps; task_session := session_id |} in
        ({| model_manager := model_manager app;
            training_status := <[session_id := initial_status]> (training_status app);
            background_tasks := background_tasks app ++ [task] |},
         TrainingStarted (dict_keys papers_by_index) session_id alignment_method)
    end.

Definition progress_completed : Progress :=
  {| current_step := "completed"; total_steps := 4; current_step_number := 4;
     progress_message := "Training and alignment completed" |}.

(** [_train_and_align_models_background]. The intermediate progress
    records are overwritten before it returns; what remains is the final
    record. Neither training function lets an exception escape. *)
Definition _train_and_align_models_background (task : Task) (app : App F) : App F :=
  match training_status app !! task_session task with
  | None => app
  | Some s =>
      let '(st, success) :=
        if decide (task_method task = "compass")
        then train_cade (task_papers task) (task_params task) (model_manager app)
        else train_procrustes (task_papers task) (task_params task) (model_manager app) in
      let final :=
        if success
        then {| status := "completed"; progress := progress_completed; error := error s |}
        else {| status := "failed"; progress := progress_completed;
                error := Some "Training process failed" |} in
      {| model_manager := st;
         training_status := <[task_session task := final]> (training_status app);
         background_tasks := background_tasks app |}
  end.

(** The event loop taking the next queued task. *)
Definition run_background (app : App F) : App F :=
  match background_tasks app with
  | [] => app
  | task :: rest =>
      _train_and_align_models_background task
        {| model_manager := model_manager app;
           training_status := training_status app;
           background_tasks := rest |}
  end.

(** DELETE [/models] *)
Definition clear_models_endpoint (fs_raises : bool) (app : App F) : App F * Response :=
  let '(st, success) := clear_models fs_raises (model_manager app) in
  ({| model_manager := st; training_status := training_status app;
      background_tasks := background_tasks app |},
   if success
   then ModelsCleared "All models cleared successfully" true
   else ModelsCleared "No models to clear" false).

End Endpoints.

(** ** A concrete instance

    Exact rationals for the scalars and one-dimensional vectors, where
    the external functions can be written down: the singular value
    decomposition of a 1 by 1 matrix [[x]] is [sign x . |x| . 1], and the
    cosine of two one-dimensional vectors is the sign of their product.
    [toy_fit] stands for gensim: a word enters the vocabulary when its
    count reaches [min_count], with its count as vector; an empty
    vocabulary raises, as in gensim. *)

Module Sample.

#[global] Instance Qfloat : Float64 Q := {|
  fzero := 0%Q;
  fone := 1%Q;
  fadd := fun a b => Qred (a + b);
  fsub := fun a b => Qred (a - b);
  fmul := fun a b => Qred (a * b);
  fdiv := fun a b => Qred (a / b);
  fopp := fun a => Qred (- a);
  of_nat := fun n => inject_Z (Z.of_nat n);
  fle := Qle_bool
|}.

Definition svd1 (g : list (list Q)) : option (list (list Q) * list Q * list (list Q)) :=
  match g with
  | [[x]] =>
      if Qle_bool 0 x then Some ([[1%Q]], [x], [[1%Q]])
      else Some ([[(-1 # 1)%Q]], [Qred (- x)], [[1%Q]])
  | _ => None
  end.

Definition cosine1 (u v : list Q) : Q :=
  match u, v with
  | [x], [y] =>
      match Qcompare (x * y) 0 with
      | Gt => 1%Q
      | Lt => (-1 # 1)%Q
      | Eq => 0%Q
      end
  | _, _ => 0%Q
  end.

Definition count_words (words : list string) : gmap string nat :=
  foldl (fun m w => <[w := S (default 0 (m !! w))]> m) ∅ words.

Definition toy_fit (sentences : list (list string)) (ps : Params) : option (Word2Vec Q) :=
  let kept := filter (fun kv => p_min_count ps <= snd kv) (count_words (concat sentences)) in
  match map_to_list kept with
  | [] => None
  | _ :: _ =>
      Some {| wv := (fun c => replicate (p_vector_dim ps) (inject_Z (Z.of_nat c))) <$> kept;
              vector_size := p_vector_dim ps |}
  end.

Definition library (cade_available compass_ok : bool) : Library Q := {|
  linalg_svd := svd1;
  cosine := cosine1;
  gensim_fit := toy_fit;
  CADE_AVAILABLE := cade_available;
  CADE_train_compass := fun _ _ => compass_ok;
  CADE_train_slice := fun ps _ slice_text => toy_fit [Tokenizer.split slice_text] ps
|}.

Definition params : Params :=
  {| p_vector_dim := 1; p_window := 20; p_min_count := 1; p_epochs := 5 |}.

Definition anchor_words : list string :=
  ["w0"; "w1"; "w2"; "w3"; "w4"; "w5"; "w6"; "w7"; "w8"; "w9"].

Definition vec (z : Z) : list Q := [inject_Z z].

(** Source space: anchor [wi] at [i], and the word [extra], known to the
    source only, at 100. Target space: anchor [wi] at [2i + 5]. *)
Definition source_wv : gmap string (list Q) :=
  <["extra" := vec 100]>
    (list_to_map (zip anchor_words (map (fun i => vec (Z.of_nat i)) (seq 0 10)))).

Definition target_wv : gmap string (list Q) :=
  list_to_map (zip anchor_words (map (fun i => vec (2 * Z.of_nat i + 5)) (seq 0 10))).

Definition source_matrix : list (list Q) := map (fun i => vec (Z.of_nat i)) (seq 0 10).
Definition target_matrix : list (list Q) := map (fun i => vec (2 * Z.of_nat i + 5)) (seq 0 10).

Definition target_model : Word2VecModel :=
  {| index := "1990"; model := 0; created_at := 0; vector_dim := 1; vocab_size := 10 |}.

Definition source_model : Word2VecModel :=
  {| index := "2000"; model := 1; created_at := 0; vector_dim := 1; vocab_size := 11 |}.

Definition heap2 : gmap nat (Word2Vec Q) :=
  <[1 := {| wv := source_wv; vector_size := 1 |}]>
    (<[0 := {| wv := target_wv; vector_size := 1 |}]> ∅).

(** A registry holding the two spaces, reference first. *)
Definition state2 : State Q :=
  {| models := [("1990", target_model); ("2000", source_model)];
     reference_index := None; heap := heap2; files := ∅; clock := 0 |}.

Definition empty_state : State Q :=
  {| models := []; reference_index := None; heap := ∅; files := ∅; clock := 0 |}.

Definition empty_app : App Q :=
  {| model_manager := empty_state; training_status := ∅; background_tasks := [] |}.

(** The end-to-end scenario of the specification, trained but not yet
    aligned, and a later run on one new slice. *)
Definition cat_dog_papers : list (string * list string) :=
  [("1990", ["the cat sat"; "a cat ran"]); ("2000", ["the dog sat"; "a dog ran"])].

Definition trained_cat_dog : State Q :=
  (foldl (train_step (LIB := library true true) params) (empty_state, 0) cat_dog_papers).1.


Definition one_paper : list Paper :=
  [{| paper_index := "1990"; paper_text := "the cat sat" |}].

Definition sample_topics : list Topic :=
  [{| t_id := 1; t_name := "w1";
      t_related_terms := [{| rt_id := 7; rt_term := "extra" |};
                          {| rt_id := 8; rt_term := "w2" |}] |}].

(** The store after aligning the source space of [state2] to its target. *)
Definition aligned_heap : gmap nat (Word2Vec Q) :=
  (_align_single_model (LIB := library true true)
     heap2 source_model target_model anchor_words).1.

End Sample.

(** ** The statements of the specification that are compared with the code *)


(** "The rotation-plus-translation is applied to every vector of the
    source space's vocabulary": the image of a vector [v] under the map
    fitted on the anchor matrices, [(v - mean(source)) . R^T + mean(target)],
    and the statement that every word of the source ends there. *)
Section SpecStatements.
Context {F : Type} {FO : Float64 F} {LIB : Library F}.

Definition spec_transform (source target : list (list F)) (v : list F) : option (list F) :=
  let source_centered := sub_rows source (mean_axis0 source) in
  let target_centered := sub_rows target (mean_axis0 target) in
  g ← matmul (transpose target_centered) source_centered;
  '(U, _, Vt) ← linalg_svd g;
  R ← matmul U Vt;
  a ← matmul (sub_rows [v] (mean_axis0 source)) (transpose R);
  r ← add_rows a (mean_axis0 target);
  head r.

Definition all_vectors_transformed (h : gmap nat (Word2Vec F))
    (source_model target_model : Word2VecModel) (common_words : list string)
    (h' : gmap nat (Word2Vec F)) (aligned_model : Word2VecModel) : Prop :=
  forall word v, get_word_vector h source_model word = Some v ->
    get_word_vector h' aligned_model word
    = spec_transform (gather_vectors h source_model target_model common_words).1
                     (gather_vectors h source_model target_model common_words).2 v.

(** "The request is answered with an error, synchronously." *)
Definition rejected (r : Response) : Prop :=
  exists code detail, r = HTTPException code detail.


End SpecStatements.

(** ** Neighbours: [get_most_similar], [get_neighbor_analysis_data] and
    GET [/neighbor-analysis/{word}] *)

(** What gensim's [wv.most_similar(word, topn=topn)] does: it returns the
    neighbours with their similarities, best first, or raises. *)
Inductive MostSimilar (F : Type) :=
| Neighbors (similar_words : list (string * F))
| RaisesKeyError
| RaisesOther (msg : string).
Arguments Neighbors {F} _.
Arguments RaisesKeyError {F}.
Arguments RaisesOther {F} _.

Class Neighbourhood (F : Type) := {
  gensim_most_similar : Word2Vec F -> string -> nat -> MostSimilar F
}.

(** The result of a call that may let an exception through. *)
Inductive Outcome (A : Type) :=
| Returned (a : A)
| Raised (msg : string).
Arguments Returned {A} _.
Arguments Raised {A} _.

Record Neighbor (F : Type) := {
  n_word : string;
  n_similarity : F;
  n_rank : nat
}.
Arguments n_word {F} _.
Arguments n_similarity {F} _.
Arguments n_rank {F} _.

(** The per-slice entry of [neighbor_data["models"]]. Both entries with
    [word_found = False] carry no neighbours and a message. *)
Inductive SliceReport (F : Type) :=
| WordMissing (message : string)
| WordFound (neighbors : list (Neighbor F))
    (vocabulary_size vector_dimensions created : nat).
Arguments WordMissing {F} _.
Arguments WordFound {F} _ _ _ _.

Record NeighborData (F : Type) := {
  nd_word : string;
  nd_models : list (string * SliceReport F);
  nd_total_models : nat;
  nd_models_with_word : nat;
  nd_total_neighbors : nat
}.
Arguments nd_word {F} _.
Arguments nd_models {F} _.
Arguments nd_total_models {F} _.
Arguments nd_models_with_word {F} _.
Arguments nd_total_neighbors {F} _.

Inductive NeighborResponse (F : Type) :=
| NeighborError (status_code : nat) (detail : string)
| NeighborAnalysis (data : NeighborData F).
Arguments NeighborError {F} _ _.
Arguments NeighborAnalysis {F} _.

Section Neighbours.
Context {F : Type} {NB : Neighbourhood F}.

(** [Word2VecModel.get_most_similar]: a [KeyError] becomes the empty list,
    anything else propagates. A wrapper always refers to a stored object;
    the first branch is there for totality. *)
Definition get_most_similar (h : gmap nat (Word2Vec F)) (m : Word2VecModel)
    (word : string) (topn : nat) : Outcome (list (string * F)) :=
  match h !! model m with
  | None => Returned []
  | Some g =>
      match gensim_most_similar g word topn with
      | Neighbors similar_words => Returned similar_words
      | RaisesKeyError => Returned []
      | RaisesOther msg => Raised msg
      end
  end.

(** The loop that formats the neighbours: [rank] is [len(neighbors) + 1]
    at the time of the append. *)
Definition rank_neighbors (similar_words : list (string * F)) : list (Neighbor F) :=
  foldl (fun neighbors ws =>
           neighbors ++ [{| n_word := fst ws; n_similarity := snd ws;
                            n_rank := length neighbors + 1 |}])
        [] similar_words.

(** One iteration of the loop over [self.models.items()]; the
    accumulator is [neighbor_data["models"]], [models_with_word] and
    [total_neighbors]. *)
Definition neighbor_step (h : gmap nat (Word2Vec F)) (word : string) (topn : nat)
    (acc : list (string * SliceReport F) * nat * nat) (item : string * Word2VecModel)
    : list (string * SliceReport F) * nat * nat :=
  let '(reports, models_with_word, total_neighbors) := acc in
  let '(idx, m) := item in
  if decide (word ∈ vocab h m) then
    let models_with_word := S models_with_word in
    match get_most_similar h m word topn with
    | Returned similar_words =>
        (dict_set idx
           (WordFound (rank_neighbors similar_words)
              (vocab_size m) (vector_dim m) (created_at m)) reports,
         models_with_word, total_neighbors + length similar_words)
    | Raised msg =>
        (dict_set idx (WordMissing ("Error retrieving neighbors: " +:+ msg)) reports,
         models_with_word, total_neighbors)
    end
  else
    (dict_set idx (WordMissing ("Word '" +:+ word +:+ "' not found in vocabulary")) reports,
     models_with_word, total_neighbors).

Definition get_neighbor_analysis_data (st : State F) (word : string) (topn : nat)
    : option (NeighborData F) :=
  match models st with
  | [] => None
  | _ :: _ =>
      let '(reports, models_with_word, total_neighbors) :=
        foldl (neighbor_step (heap st) word topn) ([], 0, 0) (models st) in
      if decide (0 < models_with_word)
      then Some {| nd_word := word; nd_models := reports;
                   nd_total_models := length (models st);
                   nd_models_with_word := models_with_word;
                   nd_total_neighbors := total_neighbors |}
      else None
  end.

(** GET [/neighbor-analysis/{word}] *)
Definition get_neighbor_analysis (word : string) (topn : nat) (app : App F)
    : NeighborResponse F :=
  match models (model_manager app) with
  | [] => NeighborError 400 "No trained models found. Please train models first."
  | _ :: _ =>
      match get_neighbor_analysis_data (model_manager app) word topn with
      | None => NeighborError 404 ("Word '" +:+ word +:+ "' not found in any trained models")
      | Some neighbor_data => NeighborAnalysis neighbor_data
      end
  end.

End Neighbours.

(** ** GET [/training-status/{session_id}] *)

Inductive StatusResponse :=
| StatusNotFound (session_id : string)
| StatusReport (session_id : string) (status : string) (progress : Progress)
    (error : option string).

Definition get_training_status {F : Type} (session_id : string) (app : App F)
    : StatusResponse :=
  match training_status app !! session_id with
  | None => StatusNotFound session_id
  | Some s => StatusReport session_id (status s) (progress s) (error s)
  end.

(** The texts of the papers filed under one index, in upload order. *)
Definition texts_of (idx : string) (papers : list Paper) : list string :=
  map paper_text (filter (fun paper => paper_index paper = idx) papers).

(** A stand-in for gensim's neighbour search on the sample spaces: the
    other words of the vocabulary with their cosine to the query word,
    cut to [topn]; an unknown word raises [KeyError]. *)
Module SampleNeighbours.

Definition most_similar1 (g : Word2Vec Q) (word : string) (topn : nat) : MostSimilar Q :=
  match wv g !! word with
  | None => RaisesKeyError
  | Some v =>
      Neighbors (take topn
        (map (fun kv : string * list Q => (kv.1, Sample.cosine1 v kv.2))
             (map_to_list (delete word (wv g)))))
  end.

Definition neighbourhood : Neighbourhood Q :=
  {| gensim_most_similar := most_similar1 |}.

Definition app2 : App Q :=
  {| model_manager := Sample.state2; training_status := ∅; background_tasks := [] |}.

End SampleNeighbours.

(** ** Sessions: [core/session.py] and [core/dependencies.py]

    Every endpoint above receives its session id from
    [get_session_id], which is [get_user_session_id]. Time is a number of
    seconds, read from the clock where the source calls
    [datetime.now()]; the identifier drawn by [uuid.uuid4()] is an
    argument. *)

Record SessionEntry := {
  s_created_at : nat;
  s_expires_at : nat
}.

Record TopicRow := {
  row_topic_id : nat;
  row_topic_name : string
}.

Record TermRow := {
  row_term_id : nat;
  row_term_topic : nat;
  row_term : string
}.

(** The three tables of the database. *)
Record Database := {
  db_papers : list Paper;
  db_topics : list TopicRow;
  db_terms : list TermRow
}.

Record SessionManager := {
  session_duration : nat;
  sessions : gmap string SessionEntry
}.

Inductive SessionResult :=
| SessionId (session_id : string)
| SessionHTTPException (status_code : nat).

Definition set_sessions (ss : gmap string SessionEntry) (mgr : SessionManager)
    : SessionManager :=
  {| session_duration := session_duration mgr; sessions := ss |}.

(** [create_session]: [None] is the [ValueError]. *)
Definition create_session (new_id : string) (now : nat) (mgr : SessionManager)
    : SessionManager * option string :=
  if decide (0 < size (sessions mgr)) then (mgr, None)
  else
    (set_sessions
       (<[new_id := {| s_created_at := now;
                       s_expires_at := now + session_duration mgr |}]> (sessions mgr)) mgr,
     Some new_id).

(** [_cleanup_session_data]: every paper, topic and related term is
    deleted, whichever session they belong to; when the database raises,
    the transaction is rolled back and the error swallowed. *)
Definition _cleanup_session_data (db_raises : bool) (db : Database) : Database :=
  if db_raises then db
  else {| db_papers := []; db_topics := []; db_terms := [] |}.

Definition is_session_valid (session_id : string) (now : nat) (db_raises : bool)
    (mgr : SessionManager) (db : Database) : SessionManager * Database * bool :=
  match sessions mgr !! session_id with
  | None => (mgr, db, false)
  | Some session =>
      if decide (s_expires_at session < now)
      then (set_sessions (delete session_id (sessions mgr)) mgr,
            _cleanup_session_data db_raises db, false)
      else (mgr, db, true)
  end.

Definition is_system_available (mgr : SessionManager) : bool :=
  bool_decide (size (sessions mgr) = 0).

Definition terminate_session (session_id : string) (db_raises : bool)
    (mgr : SessionManager) (db : Database) : SessionManager * Database * bool :=
  match sessions mgr !! session_id with
  | None => (mgr, db, false)
  | Some _ =>
      (set_sessions (delete session_id (sessions mgr)) mgr,
       _cleanup_session_data db_raises db, true)
  end.

(** [cleanup_expired_sessions]: the data is wiped once per expired
    session, which amounts to once if there is any. *)
Definition cleanup_expired_sessions (now : nat) (db_raises : bool)
    (mgr : SessionManager) (db : Database) : SessionManager * Database :=
  let expired := filter (fun kv => s_expires_at (snd kv) < now) (sessions mgr) in
  (set_sessions (filter (fun kv => ~ s_expires_at (snd kv) < now) (sessions mgr)) mgr,
   if decide (0 < size expired) then _cleanup_session_data db_raises db else db).

(** [get_user_session_id]. An absent or empty header asks for a new
    session: [now_create] is the clock read by [create_session],
    [now_check] the later one read by [is_session_valid]. *)
Definition get_user_session_id (header : option string) (new_id : string)
    (now_create now_check : nat) (db_raises : bool)
    (mgr : SessionManager) (db : Database) : SessionManager * Database * SessionResult :=
  let new_session :=
    if is_system_available mgr then create_session new_id now_create mgr
    else (mgr, None) in
  let '(mgr1, session_id) :=
    match header with
    | None => new_session
    | Some s => if Tokenizer.is_empty s then new_session else (mgr, Some s)
    end in
  match session_id with
  | None => (mgr1, db, SessionHTTPException 409)
  | Some sid =>
      let '(mgr2, db2, valid) := is_session_valid sid now_check db_raises mgr1 db in
      if valid then (mgr2, db2, SessionId sid)
      else (mgr2, db2, SessionHTTPException 401)
  end.

(** The requests that reach the session manager. *)
Inductive SessionRequest :=
| ReqCreate (new_id : string) (now : nat)
| ReqValid (session_id : string) (now : nat) (db_raises : bool)
| ReqTerminate (session_id : string) (db_raises : bool)
| ReqCleanup (now : nat) (db_raises : bool)
| ReqDependency (header : option string) (new_id : string)
    (now_create now_check : nat) (db_raises : bool).

Definition serve (req : SessionRequest) (s : SessionManager * Database)
    : SessionManager * Database :=
  let '(mgr, db) := s in
  match req with
  | ReqCreate new_id now => ((create_session new_id now mgr).1, db)
  | ReqValid sid now f => (is_session_valid sid now f mgr db).1
  | ReqTerminate sid f => (terminate_session sid f mgr db).1
  | ReqCleanup now f => cleanup_expired_sessions now f mgr db
  | ReqDependency header new_id t1 t2 f => (get_user_session_id header new_id t1 t2 f mgr db).1
  end.

(** ** [format_term] of [models/database.py], which names the topics and
    terms that [calculate_cosine_similarities] looks up *)

(** The characters removed by [str.strip()] without argument. *)
Definition WS : string :=
  string_of_list_ascii
    (map ascii_of_nat [9; 10; 11; 12; 13; 28; 29; 30; 31; 32; 133; 160]).

Inductive FormatResult :=
| FormatNone
| FormatValueError (msg : string)
| Formatted (term : string).

Definition format_term (term : string) : FormatResult :=
  if Tokenizer.is_empty term then FormatNone
  else
    let words := Tokenizer.split (Tokenizer.strip WS term) in
    if decide (3 < length words)
    then FormatValueError "Please enter a term with 1 to 3 words only."
    else if decide (1 < length words)
         then Formatted (String.concat "_" words)
         else Formatted term.

(** * Properties *)

(** ** Index form of the array operations *)

Section NumpyFacts.
Context {F : Type} {FO : Float64 F}.

Lemma map_as_seq {A B : Type} (f : A -> B) (l : list A) (a : A) :
  map f l = map (fun i => f (nth i l a)) (seq 0 (length l)).
Proof.
  induction l as [|x l IH]; [reflexivity|].
  cbn [length seq map nth]. f_equal.
  rewrite IH, <- seq_shift, map_map. reflexivity.
Qed.

Lemma nth_map_seq {B : Type} (g : nat -> B) (n k : nat) (b : B) :
  k < n -> nth k (map g (seq 0 n)) b = g k.
Proof.
  intros Hk.
  rewrite (nth_indep _ b (g 0)) by (rewrite length_map, length_seq; lia).
  rewrite (map_nth g (seq 0 n) 0 k), seq_nth by lia. reflexivity.
Qed.

Lemma map_seq_ext {B : Type} (f g : nat -> B) (n : nat) :
  (forall i, i < n -> f i = g i) -> map f (seq 0 n) = map g (seq 0 n).
Proof.
  intros Hfg. apply map_ext_in. intros i Hi. apply in_seq in Hi. apply Hfg. lia.
Qed.

Lemma zip_with_as_seq {A B C : Type} (f : A -> B -> C) (u : list A) (v : list B)
    (a : A) (b : B) (d : nat) :
  length u = d -> length v = d ->
  zip_with f u v = map (fun k => f (nth k u a) (nth k v b)) (seq 0 d).
Proof.
  revert v d. induction u as [|x u IH]; intros [|y v] d Hu Hv; cbn in *; subst d;
    try discriminate; [reflexivity|].
  cbn [seq map nth]. f_equal.
  rewrite <- seq_shift, map_map. apply IH; [reflexivity|lia].
Qed.

Lemma shape_row (m : list (list F)) (n d i : nat) :
  shape m n d -> i < n -> length (nth i m []) = d.
Proof.
  intros [Hn Hd] Hi. rewrite Forall_forall in Hd. apply Hd.
  apply list_elem_of_In, nth_In. lia.
Qed.

Lemma shape_ncols (m : list (list F)) (n d : nat) :
  shape m n d -> 0 < n -> ncols m = d.
Proof.
  intros Hs Hn. pose proof (shape_row m n d 0 Hs Hn) as H0.
  destruct Hs as [Hlen _]. destruct m; cbn in *; [lia|exact H0].
Qed.

Lemma shape_map_seq (g : nat -> nat -> F) (n d : nat) :
  shape (map (fun i => map (g i) (seq 0 d)) (seq 0 n)) n d.
Proof.
  split; [by rewrite length_map, length_seq|].
  apply Forall_forall. intros r Hr. apply list_elem_of_In, in_map_iff in Hr.
  destruct Hr as (i & <- & _). by rewrite length_map, length_seq.
Qed.

Lemma row_as_seq (m : list (list F)) (n d i : nat) :
  shape m n d -> i < n -> nth i m [] = map (fun k => entry m i k) (seq 0 d).
Proof.
  intros Hs Hi. pose proof (shape_row m n d i Hs Hi) as Hl.
  unfold entry. rewrite <- Hl.
  rewrite <- (map_as_seq (fun x => x) (nth i m []) fzero). by rewrite map_id.
Qed.

Lemma column_as_seq (m : list (list F)) (n j : nat) :
  length m = n -> column j m = map (fun i => entry m i j) (seq 0 n).
Proof.
  intros <-. unfold column, entry.
  apply (map_as_seq (fun row => nth j row fzero)).
Qed.

Lemma entry_map_seq (g : nat -> nat -> F) (n d i j : nat) :
  i < n -> j < d ->
  entry (map (fun i => map (g i) (seq 0 d)) (seq 0 n)) i j = g i j.
Proof.
  intros Hi Hj. unfold entry.
  rewrite (nth_map_seq (fun i => map (g i) (seq 0 d))) by done.
  by rewrite nth_map_seq.
Qed.

Lemma transpose_index (m : list (list F)) (n d : nat) :
  shape m n d -> 0 < n ->
  transpose m = map (fun j => map (fun i => entry m i j) (seq 0 n)) (seq 0 d).
Proof.
  intros Hs Hn. unfold transpose. rewrite (shape_ncols m n d Hs Hn).
  apply map_ext. intros j. apply column_as_seq, Hs.
Qed.

Lemma matmul_index (a b : list (list F)) (n k d : nat) :
  shape a n k -> shape b k d -> 0 < n -> 0 < k ->
  matmul a b =
    Some (map (fun i => map (fun j =>
            dot (nth i a []) (map (fun l => entry b l j) (seq 0 k)))
            (seq 0 d)) (seq 0 n)).
Proof.
  intros Ha Hb Hn Hk. unfold matmul, nrows.
  rewrite (shape_ncols a n k Ha Hn), (shape_ncols b k d Hb Hk).
  destruct Hb as [Hbl _]. rewrite decide_True by done. f_equal.
  rewrite (map_as_seq _ a []). destruct Ha as [-> _].
  apply map_ext. intros i. apply map_ext. intros j.
  by rewrite (column_as_seq b k j).
Qed.

Lemma add_rows_index (m : list (list F)) (v : list F) (n d : nat) :
  shape m n d -> length v = d -> 0 < n ->
  add_rows m v =
    Some (map (fun i => map (fun j => fadd (entry m i j) (nth j v fzero))
            (seq 0 d)) (seq 0 n)).
Proof.
  intros Hm Hv Hn. unfold add_rows.
  rewrite (shape_ncols m n d Hm Hn), decide_True by done. f_equal.
  rewrite (map_as_seq _ m []). destruct Hm as [Hl Hd]. rewrite Hl.
  apply map_seq_ext. intros i Hi.
  apply (zip_with_as_seq fadd _ _ fzero fzero); [|done].
  apply (shape_row m n d); [by split|done].
Qed.

Lemma mean_axis0_index (m : list (list F)) (n d : nat) :
  shape m n d -> 0 < n ->
  mean_axis0 m =
    map (fun j => fdiv (vsum (map (fun i => entry m i j) (seq 0 n))) (of_nat n)) (seq 0 d).
Proof.
  intros Hm Hn. unfold mean_axis0, nrows.
  rewrite (shape_ncols m n d Hm Hn). destruct Hm as [Hl _]. rewrite Hl.
  apply map_ext. intros j. by rewrite (column_as_seq m n j).
Qed.

End NumpyFacts.

(** ** Procrustes alignment *)

Section ProcrustesFacts.
Context {F : Type} {FO : Float64 F} {LIB : Library F}.

Lemma centered_index (m : list (list F)) (n d : nat) :
  shape m n d -> 0 < n -> sub_rows m (mean_axis0 m) = spec_centered m n d.
Proof.
  intros Hm Hn. unfold sub_rows, spec_centered.
  rewrite (mean_axis0_index m n d Hm Hn).
  rewrite (map_as_seq _ m []). destruct (Hm) as [Hl _]. rewrite Hl.
  apply map_seq_ext. intros i Hi.
  rewrite (zip_with_as_seq fsub _ _ fzero fzero d);
    [|by apply (shape_row m n d)|by rewrite length_map, length_seq].
  apply map_seq_ext. intros k Hk.
  by rewrite (nth_map_seq _ d k fzero Hk).
Qed.

Lemma shape_spec_centered (m : list (list F)) (n d : nat) :
  shape (spec_centered m n d) n d.
Proof. apply shape_map_seq. Qed.

Lemma shape_spec_rotation (U Vt : list (list F)) (d : nat) :
  shape (spec_rotation U Vt d) d d.
Proof. apply shape_map_seq. Qed.

Lemma gram_index (source target : list (list F)) (n d : nat) :
  0 < n -> 0 < d ->
  matmul (transpose (spec_centered target n d)) (spec_centered source n d)
  = Some (spec_gram source target n d).
Proof.
  intros Hn Hd.
  rewrite (transpose_index _ n d (shape_spec_centered target n d) Hn).
  rewrite (matmul_index _ _ d n d);
    [|apply shape_map_seq|apply shape_spec_centered|done|done].
  f_equal. unfold spec_gram. apply map_seq_ext. intros a Ha.
  apply map_seq_ext. intros b Hb.
  by rewrite (nth_map_seq _ d a [] Ha).
Qed.

Lemma rotation_index (U Vt : list (list F)) (d : nat) :
  0 < d -> shape U d d -> shape Vt d d ->
  matmul U Vt = Some (spec_rotation U Vt d).
Proof. intros Hd HU HVt. by rewrite (matmul_index U Vt d d d). Qed.

Lemma apply_rotation_index (sc R : list (list F)) (n d : nat) :
  0 < n -> 0 < d -> shape sc n d -> shape R d d ->
  matmul sc (transpose R)
  = Some (map (fun i => map (fun j => dot (nth i sc []) (nth j R []))
            (seq 0 d)) (seq 0 n)).
Proof.
  intros Hn Hd Hsc HR.
  rewrite (transpose_index R d d HR Hd).
  rewrite (matmul_index _ _ n d d); [|done|apply shape_map_seq|done|done].
  f_equal. apply map_seq_ext. intros i Hi. apply map_seq_ext. intros j Hj.
  f_equal. rewrite (row_as_seq R d d j HR Hj).
  apply map_seq_ext. intros l Hl.
  by rewrite (entry_map_seq (fun j i => entry R i j) d d l j).
Qed.

(** C1. For anchor matrices [source] and [target] of one shape [n] by [d],
    [_procrustes_align] mean-centers both over the rows, passes
    [target_centered^T . source_centered] to the singular value
    decomposition, forms [R = U . Vt] and returns
    [source_centered . R^T + mean(target, axis=0)]; it raises exactly when
    the decomposition does. *)
Theorem procrustes_align_computes (source target : list (list F)) (n d : nat) :
  0 < n -> 0 < d -> shape source n d -> shape target n d ->
  sub_rows source (mean_axis0 source) = spec_centered source n d
  /\ sub_rows target (mean_axis0 target) = spec_centered target n d
  /\ (linalg_svd (spec_gram source target n d) = None ->
      _procrustes_align source target = None)
  /\ (forall U S Vt,
        linalg_svd (spec_gram source target n d) = Some (U, S, Vt) ->
        shape U d d -> shape Vt d d ->
        _procrustes_align source target = Some (spec_aligned source target U Vt n d)).
Proof.
  intros Hn Hd Hs Ht.
  pose proof (centered_index source n d Hs Hn) as Hsc.
  pose proof (centered_index target n d Ht Hn) as Htc.
  split; [done|]. split; [done|].
  unfold _procrustes_align. rewrite Hsc, Htc, (gram_index source target n d Hn Hd).
  split.
  - intros Hsvd. cbn. by rewrite Hsvd.
  - intros U S Vt Hsvd HU HVt. cbn. rewrite Hsvd. cbn.
    rewrite (rotation_index U Vt d Hd HU HVt). cbn.
    rewrite (apply_rotation_index _ _ n d Hn Hd
               (shape_spec_centered source n d) (shape_spec_rotation U Vt d)).
    cbn.
    rewrite (add_rows_index _ (mean_axis0 target) n d);
      [|apply shape_map_seq|by rewrite (mean_axis0_index target n d), length_map, length_seq|done].
    f_equal. unfold spec_aligned. apply map_seq_ext. intros i Hi.
    apply map_seq_ext. intros j Hj.
    rewrite (entry_map_seq _ n d i j Hi Hj).
    rewrite (mean_axis0_index target n d Ht Hn).
    by rewrite (nth_map_seq _ d j fzero Hj).
Qed.

End ProcrustesFacts.

Lemma procrustes_align_computes_witness :
  _procrustes_align (LIB := Sample.library true true)
    Sample.source_matrix Sample.target_matrix
  = Some (spec_aligned Sample.source_matrix Sample.target_matrix
            [[1%Q]] [[1%Q]] 10 1).
Proof.
  assert (Hs : shape Sample.source_matrix 10 1)
    by (split; [reflexivity|repeat constructor]).
  assert (Ht : shape Sample.target_matrix 10 1)
    by (split; [reflexivity|repeat constructor]).
  destruct (procrustes_align_computes (LIB := Sample.library true true)
              Sample.source_matrix Sample.target_matrix 10 1) as (_ & _ & _ & Hok);
    [lia|lia|exact Hs|exact Ht|].
  apply (Hok [[1%Q]] [165%Q] [[1%Q]]).
  - vm_compute. reflexivity.
  - split; [reflexivity|repeat constructor].
  - split; [reflexivity|repeat constructor].
Defined.

Example procrustes_sample :
  _procrustes_align (LIB := Sample.library true true)
    Sample.source_matrix Sample.target_matrix
  = Some (map (fun i => [Qred (inject_Z (Z.of_nat i) + (19 # 2))]) (seq 0 10)).
Proof. vm_compute. reflexivity. Qed.

(** ** Tokenizer *)

Section TokenizerFacts.
Import Tokenizer.

Lemma preprocess_fold (texts : list string) (acc : list (list string)) :
  foldl (fun processed text =>
           match sentence_of text with
           | [] => processed
           | _ :: _ => processed ++ [sentence_of text]
           end) acc texts
  = acc ++ concat (map (fun text => match sentence_of text with
                                    | [] => []
                                    | _ :: _ => [sentence_of text]
                                    end) texts).
Proof.
  revert acc. induction texts as [|text texts IH]; intros acc; cbn [foldl map concat].
  - by rewrite app_nil_r.
  - rewrite IH. destruct (sentence_of text); [done|]. by rewrite <- app_assoc.
Qed.


Lemma all_chars_app (p : ascii -> bool) (a b : string) :
  all_chars p (a +:+ b) = all_chars p a && all_chars p b.
Proof.
  induction a as [|c a IH]; [done|].
  change (String c a +:+ b) with (String c (a +:+ b)).
  cbn [all_chars]. by rewrite IH, andb_assoc.
Qed.

(** Tokens of [split] are made of the non-separator characters of the
    text. *)
Lemma split_from_chars (p : ascii -> bool) (s cur : string) (t : string) :
  all_chars p cur = true ->
  all_chars (fun c => is_space c || p c) s = true ->
  t ∈ split_from cur s -> all_chars p t = true.
Proof.
  revert cur. induction s as [|c s IH]; intros cur Hcur Hs Ht;
    cbn [split_from all_chars] in *.
  - destruct (is_empty cur); [by apply elem_of_nil in Ht|].
    apply list_elem_of_singleton in Ht. by subst.
  - apply andb_true_iff in Hs as [Hc Hs].
    destruct (is_space c) eqn:Esp.
    + destruct (is_empty cur).
      * by apply (IH EmptyString).
      * apply elem_of_cons in Ht as [->|Ht]; [done|]. by apply (IH EmptyString).
    + apply (IH (cur +:+ String c EmptyString)); [|done|done].
      rewrite all_chars_app, Hcur. cbn [all_chars].
      cbn in Hc. by rewrite Hc.
Qed.












Example tokenize_sample :
  _preprocess_texts ["The CAT, sat... on (it)!"; "a b"; "Hello  World"]
  = [["the"; "cat"; "sat"; "it"]; ["hello"; "world"]].
Proof. vm_compute. reflexivity. Qed.

End TokenizerFacts.


(** ** The object store under [_align_single_model] *)

Section AlignFacts.
Context {F : Type} {FO : Float64 F} {LIB : Library F}.

Lemma wv_setitem_is_Some (h : gmap nat (Word2Vec F)) l w v l' :
  is_Some (wv_setitem h l w v !! l') <-> is_Some (h !! l').
Proof.
  unfold wv_setitem. destruct (h !! l) as [g|] eqn:E; [|done].
  destruct (decide (l = l')) as [->|Hne].
  - rewrite lookup_insert_eq, E. split; eauto.
  - by rewrite lookup_insert_ne.
Qed.

Lemma wv_setitem_dom (h : gmap nat (Word2Vec F)) l w v :
  dom (wv_setitem h l w v) = dom h.
Proof.
  apply set_eq. intros l'. rewrite !elem_of_dom. apply wv_setitem_is_Some.
Qed.

Lemma wv_setitem_other_loc (h : gmap nat (Word2Vec F)) l w v l' :
  l' <> l -> wv_setitem h l w v !! l' = h !! l'.
Proof.
  intros Hne. unfold wv_setitem. destruct (h !! l); [|done].
  by rewrite lookup_insert_ne.
Qed.


Lemma get_word_vector_setitem_other (h : gmap nat (Word2Vec F)) l w v m w' :
  w' <> w ->
  get_word_vector (wv_setitem h l w v) m w' = get_word_vector h m w'.
Proof.
  intros Hne. unfold get_word_vector, wv_setitem.
  destruct (h !! l) as [g|] eqn:E; [|done].
  destruct (decide (l = model m)) as [->|Hl].
  - rewrite lookup_insert_eq, E. cbn. by rewrite lookup_insert_ne.
  - by rewrite lookup_insert_ne.
Qed.

Lemma write_aligned_is_Some (h : gmap nat (Word2Vec F)) l i cw av l' :
  is_Some (write_aligned h l i cw av !! l') <-> is_Some (h !! l').
Proof.
  revert h i. induction cw as [|w cw IH]; intros h i; cbn [write_aligned]; [done|].
  rewrite IH. destruct (av !! i); [apply wv_setitem_is_Some|done].
Qed.

Lemma write_aligned_dom (h : gmap nat (Word2Vec F)) l i cw av :
  dom (write_aligned h l i cw av) = dom h.
Proof.
  apply set_eq. intros l'. rewrite !elem_of_dom. apply write_aligned_is_Some.
Qed.

Lemma write_aligned_other_loc (h : gmap nat (Word2Vec F)) l i cw av l' :
  l' <> l -> write_aligned h l i cw av !! l' = h !! l'.
Proof.
  intros Hne. revert h i.
  induction cw as [|w cw IH]; intros h i; cbn [write_aligned]; [done|].
  rewrite IH. destruct (av !! i); [by apply wv_setitem_other_loc|done].
Qed.

(** A word outside [common_words] is never written. *)
Lemma write_aligned_other_word (h : gmap nat (Word2Vec F)) l i cw av m word :
  word ∉ cw ->
  get_word_vector (write_aligned h l i cw av) m word = get_word_vector h m word.
Proof.
  revert h i. induction cw as [|w cw IH]; intros h i Hnot; cbn [write_aligned]; [done|].
  apply not_elem_of_cons in Hnot as [Hw Hcw].
  rewrite IH by done. destruct (av !! i); [by apply get_word_vector_setitem_other|done].
Qed.





(** What a successful call did. *)
Lemma align_single_model_success (h h' : gmap nat (Word2Vec F))
    source target cw aligned :
  _align_single_model h source target cw = (h', Some aligned) ->
  exists av,
    _procrustes_align (gather_vectors h source target cw).1
                      (gather_vectors h source target cw).2 = Some av
    /\ 10 <= length (gather_vectors h source target cw).1
    /\ is_Some (h !! model source)
    /\ model aligned = model source
    /\ index aligned = index source
    /\ h' = write_aligned h (model source) 0 cw av.
Proof.
  unfold _align_single_model.
  destruct (gather_vectors h source target cw) as [sv tv]. cbn [fst snd].
  case_decide as Hlen; [done|].
  destruct (_procrustes_align sv tv) as [av|]; [|done].
  unfold Word2VecModel_init.
  destruct (h !! model source) as [g|] eqn:Hg; cbn; [|done].
  intros [= <- <-]. exists av. cbn. repeat split; eauto. lia.
Qed.


(** C2, as the code has it. A successful [_align_single_model] writes the
    aligned rows to the words of [common_words] only: every other word of
    the source vocabulary keeps the vector it had before the call, and so
    does every word of every other model. *)
Theorem align_single_model_anchor_only (h h' : gmap nat (Word2Vec F))
    source target cw aligned :
  _align_single_model h source target cw = (h', Some aligned) ->
  (forall word, word ∉ cw ->
     get_word_vector h' aligned word = get_word_vector h source word)
  /\ (forall m word, model m <> model source ->
        get_word_vector h' m word = get_word_vector h m word).
Proof.
  intros Hal. apply align_single_model_success in Hal
    as (av & _ & _ & _ & Hm & _ & ->).
  split.
  - intros word Hw. rewrite write_aligned_other_word by done.
    unfold get_word_vector. by rewrite Hm.
  - intros m word Hne. unfold get_word_vector.
    by rewrite write_aligned_other_loc.
Qed.


End AlignFacts.

(** *** The two-space sample *)

Section AlignSample.
Import Sample.

Lemma sample_align_result :
  _align_single_model (LIB := library true true)
    heap2 source_model target_model anchor_words
  = (aligned_heap, Some source_model).
Proof. vm_compute. reflexivity. Qed.


Lemma sample_extra_not_anchor : "extra" ∉ anchor_words.
Proof. apply (bool_decide_unpack _). vm_compute. exact I. Qed.


Lemma align_single_model_anchor_only_witness :
  get_word_vector aligned_heap source_model "extra"
  = get_word_vector heap2 source_model "extra".
Proof.
  destruct (align_single_model_anchor_only (LIB := library true true)
              heap2 aligned_heap source_model target_model anchor_words
              source_model sample_align_result) as [Hwords _].
  apply Hwords. exact sample_extra_not_anchor.
Defined.

(** C2, as the specification words it, fails: the word [extra] of the
    source space is not an anchor and still reads 100 after the call,
    where the fitted map sends 100 to 219/2. *)
Lemma align_single_model_leaves_non_anchor :
  get_word_vector aligned_heap source_model "extra" = Some [100%Q]
  /\ spec_transform (LIB := library true true) source_matrix target_matrix [100%Q]
     = Some [(219 # 2)%Q]
  /\ ~ all_vectors_transformed (LIB := library true true)
         heap2 source_model target_model anchor_words aligned_heap source_model.
Proof.
  split; [vm_compute; reflexivity|]. split; [vm_compute; reflexivity|].
  intros Hclaim. specialize (Hclaim "extra" [100%Q]).
  vm_compute in Hclaim. specialize (Hclaim eq_refl). discriminate Hclaim.
Qed.

(** On an anchor word the code and the fitted map agree. *)
Example sample_anchor_transformed :
  get_word_vector aligned_heap source_model "w3"
  = spec_transform (LIB := library true true) source_matrix target_matrix [3%Q].
Proof. vm_compute. reflexivity. Qed.


End AlignSample.

(** ** The anchor set handed to [_align_single_model] by [align_models] *)

Section CommonVocabularyFacts.
Context {F : Type} {FO : Float64 F} {LIB : Library F}.

Lemma fold_intersection (h : gmap nat (Word2Vec F))
    (rest : list (string * Word2VecModel)) (acc : gset string) (w : string) :
  w ∈ foldl (fun acc kv => acc ∩ vocab h (snd kv)) acc rest
  <-> w ∈ acc /\ forall kv, kv ∈ rest -> w ∈ vocab h (snd kv).
Proof.
  revert acc. induction rest as [|kv rest IH]; intros acc; cbn [foldl].
  - split; [|tauto]. intros Hw. split; [done|]. by intros kv ?%elem_of_nil.
  - rewrite IH, elem_of_intersection. split.
    + intros [[Ha Hk] Hrest]. split; [done|].
      intros kv' [->|Hin]%elem_of_cons; auto.
    + intros [Ha Hall]. split; [split; [done|]|].
      * apply Hall, list_elem_of_here.
      * intros kv' Hin. by apply Hall, list_elem_of_further.
Qed.

(** Every word of the common vocabulary is known to every model of the
    registry, and no word occurs twice: the hypotheses under which
    [_align_single_model] is studied above hold for the calls made by
    [align_models]. *)
Lemma common_vocabulary_known (st : State F) (idx w : string) (m : Word2VecModel) :
  (idx, m) ∈ models st -> w ∈ _get_common_vocabulary st ->
  is_Some (get_word_vector (heap st) m w).
Proof.
  unfold _get_common_vocabulary. intros Hm Hw.
  destruct (models st) as [|[i0 m0] rest]; [by apply elem_of_nil in Hw|].
  rewrite merge_sort_Permutation in Hw. apply elem_of_elements in Hw.
  apply fold_intersection in Hw as [H0 Hrest].
  assert (Hv : w ∈ vocab (heap st) m).
  { apply elem_of_cons in Hm as [[= -> ->]|Hm]; [done|]. apply (Hrest (idx, m) Hm). }
  unfold vocab in Hv. unfold get_word_vector.
  destruct (heap st !! model m) as [g|]; [|by apply elem_of_empty in Hv].
  cbn. by apply elem_of_dom.
Qed.

Lemma common_vocabulary_NoDup (st : State F) : NoDup (_get_common_vocabulary st).
Proof.
  unfold _get_common_vocabulary. destruct (models st) as [|[i0 m0] rest].
  - apply NoDup_nil_2.
  - rewrite merge_sort_Permutation. apply NoDup_elements.
Qed.

End CommonVocabularyFacts.

(** ** Insertion-ordered dictionaries: facts *)

Section OdictFacts.
Context {V : Type}.
Implicit Types (d : list (string * V)) (k : string) (v : V).

Lemma dict_get_set_eq d k v : dict_get k (dict_set k v d) = Some v.
Proof.
  induction d as [|[k' v'] d IH]; cbn; [by rewrite decide_True|].
  destruct (decide (k = k')) as [->|Hne]; cbn.
  - by rewrite decide_True.
  - by rewrite decide_False.
Qed.

Lemma dict_get_set_ne d k k' v : k' <> k -> dict_get k' (dict_set k v d) = dict_get k' d.
Proof.
  intros Hne. induction d as [|[k0 v0] d IH]; cbn; [by rewrite decide_False|].
  destruct (decide (k = k0)) as [->|Hk]; cbn.
  - by rewrite !decide_False.
  - destruct (decide (k' = k0)); [done|apply IH].
Qed.

Lemma dict_get_None d k : dict_get k d = None <-> k ∉ dict_keys d.
Proof.
  induction d as [|[k' v'] d IH]; cbn; [split; [intros _; apply not_elem_of_nil|done]|].
  rewrite not_elem_of_cons. destruct (decide (k = k')) as [->|Hne].
  - split; [done|]. by intros [[] _].
  - rewrite IH. tauto.
Qed.

Lemma dict_get_elem d k v : NoDup (dict_keys d) -> (k, v) ∈ d -> dict_get k d = Some v.
Proof.
  induction d as [|[k' v'] d IH]; cbn; intros Hnd Hin; [by apply elem_of_nil in Hin|].
  apply NoDup_cons in Hnd as [Hk' Hnd].
  apply elem_of_cons in Hin as [[= -> ->]|Hin]; [by rewrite decide_True|].
  rewrite decide_False; [by apply IH|].
  intros ->. apply Hk'. unfold dict_keys. apply list_elem_of_In, in_map_iff.
  exists (k', v). split; [done|by apply list_elem_of_In].
Qed.

Lemma dict_keys_set_elem d k k' v :
  k' ∈ dict_keys (dict_set k v d) <-> k' = k \/ k' ∈ dict_keys d.
Proof.
  induction d as [|[k0 v0] d IH]; cbn.
  - rewrite list_elem_of_singleton. split; [auto|]. intros [?|?%elem_of_nil]; done.
  - destruct (decide (k = k0)) as [->|Hne]; cbn; rewrite !elem_of_cons.
    + tauto.
    + rewrite IH. tauto.
Qed.

Lemma dict_set_NoDup d k v : NoDup (dict_keys d) -> NoDup (dict_keys (dict_set k v d)).
Proof.
  induction d as [|[k0 v0] d IH]; cbn; intros Hnd.
  - apply NoDup_singleton.
  - apply NoDup_cons in Hnd as [Hk0 Hnd].
    destruct (decide (k = k0)) as [->|Hne]; cbn; apply NoDup_cons.
    + done.
    + split; [|by apply IH]. intros Hin.
      apply (dict_keys_set_elem d k k0 v) in Hin as [?|?]; done.
Qed.

End OdictFacts.

(** ** The registry under [align_models] and [train_procrustes] *)

Section RegistryFacts.
Context {F : Type} {FO : Float64 F} {LIB : Library F}.

Lemma set_heap_same (st : State F) : set_heap (heap st) st = st.
Proof. by destruct st. Qed.



Lemma train_model_other (idx idx' : string) texts ps (st : State F) :
  idx' <> idx ->
  dict_get idx' (models (train_model idx texts ps st).1) = dict_get idx' (models st).
Proof.
  intros Hne. unfold train_model. destruct (gensim_fit _ ps); [|done].
  cbn. by rewrite dict_get_set_ne.
Qed.

Lemma train_model_NoDup (idx : string) texts ps (st : State F) :
  NoDup (dict_keys (models st)) ->
  NoDup (dict_keys (models (train_model idx texts ps st).1)).
Proof.
  intros Hnd. unfold train_model. destruct (gensim_fit _ ps); [|done].
  cbn. by apply dict_set_NoDup.
Qed.

Lemma train_step_state ps (st : State F) n idx texts :
  (train_step ps (st, n) (idx, texts)).1 = (train_model idx texts ps st).1.
Proof. cbn. by destruct (train_model idx texts ps st) as [st' [m|]]. Qed.


Lemma train_fold_NoDup ps papers (st : State F) n :
  NoDup (dict_keys (models st)) ->
  NoDup (dict_keys (models (foldl (train_step ps) (st, n) papers).1)).
Proof.
  revert st n. induction papers as [|[idx texts] papers IH]; intros st n Hnd; [done|].
  cbn [foldl].
  destruct (train_step ps (st, n) (idx, texts)) as [st1 n1] eqn:E.
  apply IH.
  pose proof (train_step_state ps st n idx texts) as Hst. rewrite E in Hst. cbn in Hst.
  rewrite Hst. by apply train_model_NoDup.
Qed.

(** The alignment loop never removes an entry and never makes an entry
    refer to another gensim object. *)
Lemma align_fold_keeps (st0 : State F) ref rm cw items (st : State F) am n :
  (forall idx mi, (idx, mi) ∈ items -> dict_get idx (models st0) = Some mi) ->
  (forall idx m, dict_get idx (models st0) = Some m ->
     exists m', dict_get idx (models st) = Some m'
       /\ model m' = model m /\ index m' = index m) ->
  forall idx m, dict_get idx (models st0) = Some m ->
    exists m', dict_get idx (models (foldl (align_step ref rm cw) (st, am, n) items).1.1)
               = Some m'
      /\ model m' = model m /\ index m' = index m.
Proof.
  revert st am n. induction items as [|[i mi] items IH]; intros st am n Hitems Hst; [done|].
  cbn [foldl]. unfold align_step at 2.
  assert (Hrest : forall idx mi', (idx, mi') ∈ items -> dict_get idx (models st0) = Some mi')
    by (intros ???; apply Hitems; by apply list_elem_of_further).
  destruct (decide (i = ref)); [by apply IH|].
  destruct (_align_single_model (heap st) mi rm cw) as [h' [aligned|]] eqn:E.
  - apply IH; [done|]. intros idx m Hm. cbn.
    apply align_single_model_success in E as (_ & _ & _ & _ & Hmod & Hidx & _).
    destruct (decide (idx = i)) as [->|Hne].
    + rewrite dict_get_set_eq. exists aligned.
      rewrite (Hitems i mi (list_elem_of_here _ _)) in Hm. injection Hm as <-. done.
    + rewrite dict_get_set_ne by done. by apply Hst.
  - apply IH; [done|]. intros idx m Hm. cbn. by apply Hst.
Qed.

Lemma align_models_keeps (ref : string) (st : State F) :
  NoDup (dict_keys (models st)) ->
  forall idx m, dict_get idx (models st) = Some m ->
    exists m', dict_get idx (models (align_models ref st).1) = Some m'
      /\ model m' = model m /\ index m' = index m.
Proof.
  intros Hnd idx m Hm. unfold align_models, align_models_loop.
  destruct (dict_get ref (models st)) as [rm|]; [|by exists m].
  pose proof (align_fold_keeps st ref rm
    (_get_common_vocabulary (set_reference_index (Some ref) st)) (models st)
    (set_reference_index (Some ref) st) [] 0) as Hfold.
  change (models (set_reference_index (Some ref) st)) with (models st) in *.
  destruct (foldl _ _ (models st)) as [[st' am'] n'].
  apply Hfold; [|by eauto|done].
  intros i mi Hin. by apply dict_get_elem.
Qed.


End RegistryFacts.

(** *** The cat and dog scenario *)

Section RegistrySample.
Import Sample.

Example cat_dog_common_vocabulary :
  _get_common_vocabulary trained_cat_dog = ["ran"; "sat"; "the"].
Proof. vm_compute. reflexivity. Qed.


(** The whole run on the scenario: it succeeds, both slice ids are served,
    and the space of 2000 is the one training produced. *)
Example cat_dog_run :
  let r := train_procrustes (LIB := library true true) cat_dog_papers params empty_state in
  r.2 = true
  /\ dict_keys (models r.1) = ["1990"; "2000"]
  /\ heap r.1 = heap trained_cat_dog
  /\ (align_models_loop (LIB := library true true) "1990" trained_cat_dog).1.2
     = [("1990", {| index := "1990"; model := 0; created_at := 0;
                    vector_dim := 1; vocab_size := 4 |})].
Proof. vm_compute. repeat split; reflexivity. Qed.



End RegistrySample.

(** ** Temporary files of a compass run *)

Section CompassFacts.
Context {F : Type} {FO : Float64 F} {LIB : Library F}.

Lemma slice_fold_spec (papers : list (string * list string)) (st : State F)
    (slice_files : list (string * string)) (compass_texts : list string) :
  (foldl slice_step (st, slice_files, compass_texts) papers).2
  = compass_texts ++ map (fun item => slice_text_of (snd item)) papers.
Proof.
  revert st slice_files compass_texts.
  induction papers as [|[idx texts] papers IH]; intros st sf ct; cbn [foldl map].
  - by rewrite app_nil_r.
  - unfold slice_step at 2. rewrite IH. by rewrite <- app_assoc.
Qed.

Lemma slice_fold_files_mono (papers : list (string * list string)) (st : State F)
    (slice_files : list (string * string)) (compass_texts : list string) (path : string) :
  is_Some (files st !! path) ->
  is_Some (files (foldl slice_step (st, slice_files, compass_texts) papers).1.1 !! path).
Proof.
  revert st slice_files compass_texts.
  induction papers as [|[idx texts] papers IH]; intros st sf ct Hp; cbn [foldl]; [done|].
  unfold slice_step at 2. apply IH. cbn.
  destruct (decide (slice_path idx = path)) as [->|Hne].
  - rewrite lookup_insert_eq. eauto.
  - by rewrite lookup_insert_ne.
Qed.

Lemma slice_fold_files (papers : list (string * list string)) (st : State F)
    (slice_files : list (string * string)) (compass_texts : list string) (idx : string) :
  idx ∈ dict_keys papers ->
  is_Some (files (foldl slice_step (st, slice_files, compass_texts) papers).1.1
             !! slice_path idx).
Proof.
  revert st slice_files compass_texts.
  induction papers as [|[i texts] papers IH]; intros st sf ct Hin; cbn [foldl].
  - by apply elem_of_nil in Hin.
  - cbn [dict_keys map fst] in Hin. unfold slice_step at 2.
    apply elem_of_cons in Hin as [->|Hin].
    + apply slice_fold_files_mono. cbn. rewrite lookup_insert_eq. eauto.
    + by apply IH.
Qed.

(** C4. When CADE is installed and compass training raises, [train_cade]
    returns [False] and every file it wrote under [temp] is still there:
    the compass file and the corpus file of each slice. *)
Theorem train_cade_leaves_temp_files (papers : list (string * list string))
    (ps : Params) (st : State F) :
  CADE_AVAILABLE = true ->
  CADE_train_compass ps (compass_text_of papers) = false ->
  (train_cade papers ps st).2 = false
  /\ files (train_cade papers ps st).1 !! compass_path = Some (compass_text_of papers)
  /\ forall idx, idx ∈ dict_keys papers ->
       is_Some (files (train_cade papers ps st).1 !! slice_path idx).
Proof.
  intros Hav Hcompass. unfold train_cade. rewrite Hav. cbn [negb].
  pose proof (slice_fold_spec papers st [] []) as Htexts.
  pose proof (fun idx => slice_fold_files papers st [] [] idx) as Hfiles.
  destruct (foldl slice_step (st, [], []) papers) as [[st1 sf] ct].
  cbn [fst snd] in *. cbn [app] in Htexts. subst ct.
  fold (compass_text_of papers). rewrite Hcompass. cbn [negb fst snd].
  split; [done|]. split.
  - cbn. by rewrite lookup_insert_eq.
  - intros idx Hidx. cbn.
    destruct (decide (compass_path = slice_path idx)) as [->|Hne].
    + rewrite lookup_insert_eq. eauto.
    + rewrite lookup_insert_ne by done. by apply Hfiles.
Qed.


(** ** Clearing the registry *)

Lemma rmtree_idem (dir : string) (fs : gmap string string) :
  rmtree dir (rmtree dir fs) = rmtree dir fs.
Proof.
  unfold rmtree. apply map_eq. intros p.
  apply option_eq. intros x. rewrite !map_lookup_filter_Some. tauto.
Qed.

Lemma rmtree_comm (d1 d2 : string) (fs : gmap string string) :
  rmtree d1 (rmtree d2 fs) = rmtree d2 (rmtree d1 fs).
Proof.
  unfold rmtree. apply map_eq. intros p.
  apply option_eq. intros x. rewrite !map_lookup_filter_Some. tauto.
Qed.

(** C6. With a working filesystem, DELETE [/models] answers
    [models_cleared = true] on the first call and again on the second,
    although the second finds an empty registry and changes nothing. The
    answer [models_cleared = false] is given exactly when a filesystem
    call raised. *)
Theorem clear_twice_reports_cleared (app : App F) :
  let app1 := (clear_models_endpoint false app).1 in
  (clear_models_endpoint false app).2
    = ModelsCleared "All models cleared successfully" true
  /\ models (model_manager app1) = []
  /\ clear_models_endpoint false app1
     = (app1, ModelsCleared "All models cleared successfully" true)
  /\ (clear_models_endpoint true app).2 = ModelsCleared "No models to clear" false.
Proof.
  unfold clear_models_endpoint, clear_models. cbn [fst snd]. repeat split.
  cbn [model_manager training_status background_tasks set_files set_models
       set_reference_index models reference_index heap files clock].
  rewrite (rmtree_comm "models" "model" (rmtree "models" _)), rmtree_idem.
  by rewrite rmtree_idem.
Qed.

End CompassFacts.

Section CompassSample.
Import Sample.

Lemma train_cade_leaves_temp_files_witness :
  (train_cade (LIB := library true false) cat_dog_papers params empty_state).2 = false
  /\ files (train_cade (LIB := library true false) cat_dog_papers params empty_state).1
       !! compass_path = Some (compass_text_of cat_dog_papers)
  /\ forall idx, idx ∈ dict_keys cat_dog_papers ->
       is_Some (files (train_cade (LIB := library true false)
                         cat_dog_papers params empty_state).1 !! slice_path idx).
Proof.
  apply (train_cade_leaves_temp_files (LIB := library true false)
           cat_dog_papers params empty_state); reflexivity.
Defined.

(** The files on disk after the failing run, and after a run that goes
    through. *)
Example cade_failed_run_files :
  dom (files (train_cade (LIB := library true false)
                cat_dog_papers params empty_state).1)
  = {[ "temp/cade_1990.txt"; "temp/cade_2000.txt"; "temp/compass.txt" ]}.
Proof. vm_compute. reflexivity. Qed.

Example cade_good_run_files :
  dom (files (train_cade (LIB := library true true)
                cat_dog_papers params empty_state).1)
  = {[ "model/cade_1990.model"; "model/cade_2000.model" ]}.
Proof. vm_compute. reflexivity. Qed.

Example clear_twice_sample :
  let app1 := (clear_models_endpoint false empty_app).1 in
  (clear_models_endpoint false app1).2
  = ModelsCleared "All models cleared successfully" true.
Proof. reflexivity. Qed.

End CompassSample.

(** ** The compass method without CADE *)

Section EndpointFacts.
Context {F : Type} {FO : Float64 F} {LIB : Library F}.

(** C5, as the code has it. Without CADE a compass request is accepted like
    any other: the response announces the start, the status record says
    [running] and the task is queued. The failure shows only when the
    task runs: [train_cade] returns [False] at once, the registry is left
    as it was (so no Procrustes training took place) and the status record
    ends as [failed] with the error text [Training process failed]. *)
Theorem compass_unavailable_fails_in_background (ps : Params) (papers : list Paper)
    (sid : string) (app : App F) :
  CADE_AVAILABLE = false ->
  papers <> [] ->
  let task := {| task_papers := group_papers papers; task_method := "compass";
                 task_params := ps; task_session := sid |} in
  let app1 := (train_models ps "compass" papers sid app).1 in
  (train_models ps "compass" papers sid app).2
    = TrainingStarted (dict_keys (group_papers papers)) sid "compass"
  /\ background_tasks app1 = background_tasks app ++ [task]
  /\ training_status app1 !! sid = Some initial_status
  /\ model_manager (_train_and_align_models_background task app1) = model_manager app
  /\ training_status (_train_and_align_models_background task app1) !! sid
     = Some {| status := "failed"; progress := progress_completed;
               error := Some "Training process failed" |}.
Proof.
  intros Hcade Hpapers task app1.
  assert (Hresp : train_models ps "compass" papers sid app
    = ({| model_manager := model_manager app;
          training_status := <[sid := initial_status]> (training_status app);
          background_tasks := background_tasks app ++ [task] |},
       TrainingStarted (dict_keys (group_papers papers)) sid "compass")).
  { unfold train_models. destruct papers as [|p papers]; [done|]. reflexivity. }
  subst app1. rewrite Hresp. cbn [fst snd background_tasks training_status].
  split; [done|]. split; [done|]. split; [by rewrite lookup_insert_eq|].
  unfold _train_and_align_models_background.
  cbn [training_status task_session task model_manager task_method task_papers task_params].
  rewrite lookup_insert_eq. rewrite decide_True by done.
  unfold train_cade. rewrite Hcade. cbn [negb model_manager training_status].
  split; [done|]. by rewrite lookup_insert_eq.
Qed.

End EndpointFacts.

Section EndpointSample.
Import Sample.

Lemma compass_unavailable_fails_in_background_witness :
  let task := {| task_papers := group_papers one_paper; task_method := "compass";
                 task_params := params; task_session := "s1" |} in
  let app1 := (train_models params "compass" one_paper "s1" empty_app).1 in
  (train_models params "compass" one_paper "s1" empty_app).2
    = TrainingStarted (dict_keys (group_papers one_paper)) "s1" "compass"
  /\ background_tasks app1 = background_tasks empty_app ++ [task]
  /\ training_status app1 !! "s1" = Some initial_status
  /\ model_manager (_train_and_align_models_background (LIB := library false true)
                      task app1) = model_manager empty_app
  /\ training_status (_train_and_align_models_background (LIB := library false true)
                        task app1) !! "s1"
     = Some {| status := "failed"; progress := progress_completed;
               error := Some "Training process failed" |}.
Proof.
  apply (compass_unavailable_fails_in_background (LIB := library false true)
           params one_paper "s1" empty_app); [reflexivity|discriminate].
Defined.

(** C5, as the specification words it, fails: the request is not answered
    with an error, and background work is queued. *)
Lemma compass_unavailable_is_accepted :
  let r := train_models params "compass" one_paper "s1" empty_app in
  r.2 = TrainingStarted ["1990"] "s1" "compass"
  /\ length (background_tasks r.1) = 1
  /\ ~ rejected r.2.
Proof.
  split; [reflexivity|]. split; [reflexivity|].
  intros (code & detail & Hr). discriminate Hr.
Qed.

(** The synchronous path does not consult [CADE_AVAILABLE] at all:
    [train_models] takes no library. The task, run without CADE, leaves
    the record [failed]; a bad method name is what is rejected at once. *)
Example compass_unavailable_run :
  let app1 := (train_models params "compass" one_paper "s1" empty_app).1 in
  status <$> (training_status (run_background (LIB := library false true) app1) !! "s1")
  = Some "failed"
  /\ (train_models params "bogus" one_paper "s1" empty_app).2
     = HTTPException 400 "Alignment method must be 'procrustes' or 'compass'".
Proof. split; vm_compute; reflexivity. Qed.

End EndpointSample.

(** ** Cosine similarities across the registry *)

Section QueryFacts.
Context {F : Type} {FO : Float64 F} {LIB : Library F}.










End QueryFacts.

Section QuerySample.
Import Sample.



Example similarities_sample :
  map (fun r => (related_term r, sim_index r, similarity r))
      (calculate_cosine_similarities (LIB := library true true) state2 sample_topics)
  = [("extra", "1990", None); ("extra", "2000", Some 1%Q);
     ("w2", "1990", Some 1%Q); ("w2", "2000", Some 1%Q)].
Proof. vm_compute. reflexivity. Qed.

End QuerySample.

(** * Further properties of the code *)

(** ** [_preprocess_texts] as a filter *)

Section TokenizerMore.
Import Tokenizer.

Lemma filter_nil_iff {A : Type} (P : A -> Prop) `{forall x, Decision (P x)} (l : list A) :
  filter P l = [] <-> ~ Exists P l.
Proof.
  induction l as [|x l IH].
  - split; [intros _ HE; inversion HE|done].
  - rewrite filter_cons. destruct (decide (P x)) as [Hx|Hx].
    + split; [done|]. intros Hn. destruct Hn. by left.
    + rewrite IH. split.
      * intros Hn HE. inversion HE; subst; tauto.
      * intros Hn HE. apply Hn. by right.
Qed.

(** The output is, in input order, the sentence of every document that
    has at least one whitespace-delimited token longer than 2; all other
    documents (empty, blank, or made of short tokens only) leave no
    trace. Hence the function maps a concatenation of document lists to
    the concatenation of the outputs and never returns more sentences
    than it got documents. *)
Theorem preprocess_texts_as_filter (texts more : list string) :
  _preprocess_texts texts
  = map sentence_of
      (filter (fun text => Exists (fun token => 2 < String.length token)
                             (split (lower text))) texts)
  /\ _preprocess_texts (texts ++ more) = _preprocess_texts texts ++ _preprocess_texts more
  /\ length (_preprocess_texts texts) <= length texts.
Proof.
  assert (Hchar : forall l, _preprocess_texts l
    = map sentence_of
        (filter (fun text => Exists (fun token => 2 < String.length token)
                               (split (lower text))) l)).
  { intros l. unfold _preprocess_texts. fold sentence_of.
    change (foldl (fun processed text =>
              match sentence_of text with
              | [] => processed
              | _ :: _ => processed ++ [sentence_of text]
              end) [] l = map sentence_of
        (filter (fun text => Exists (fun token => 2 < String.length token)
                               (split (lower text))) l)).
    rewrite preprocess_fold. cbn [app].
    induction l as [|text l IH]; [done|].
    cbn [map concat]. rewrite filter_cons, IH.
    destruct (decide (Exists (fun token => 2 < String.length token)
                        (split (lower text)))) as [HE|HE].
    - destruct (sentence_of text) as [|t ts] eqn:E;
        [|cbn [map app]; by rewrite E].
      exfalso. unfold sentence_of in E. apply map_eq_nil in E.
      by apply (filter_nil_iff (fun token => 2 < String.length token)) in E.
    - apply (filter_nil_iff (fun token => 2 < String.length token)) in HE.
      unfold sentence_of at 1. by rewrite HE. }
  split; [apply Hchar|]. split.
  - by rewrite !Hchar, filter_app, map_app.
  - rewrite Hchar, length_map. apply length_filter.
Qed.

End TokenizerMore.

(** ** [_get_common_vocabulary] *)

Section CommonVocabularyMore.
Context {F : Type} {FO : Float64 F} {LIB : Library F}.

Lemma str_le_total : Total str_le.
Proof. intros a b. unfold str_le. apply String.leb_total. Qed.

(** For a non-empty registry the result holds exactly the words known to
    every registered space, each once, in ascending code-point order. *)
Theorem common_vocabulary_exact (st : State F) :
  models st <> [] ->
  (forall w, w ∈ _get_common_vocabulary st
     <-> forall idx m, (idx, m) ∈ models st -> w ∈ vocab (heap st) m)
  /\ NoDup (_get_common_vocabulary st)
  /\ Sorted str_le (_get_common_vocabulary st).
Proof.
  intros Hne. split; [|split; [apply common_vocabulary_NoDup|]].
  - intros w. unfold _get_common_vocabulary.
    destruct (models st) as [|[i0 m0] rest]; [done|].
    rewrite merge_sort_Permutation, elem_of_elements, fold_intersection. split.
    + intros [H0 Hrest] idx m [[= -> ->]|Hin]%elem_of_cons; [done|].
      apply (Hrest (idx, m) Hin).
    + intros Hall. split; [apply (Hall i0), list_elem_of_here|].
      intros [idx m] Hin. apply (Hall idx). by apply list_elem_of_further.
  - unfold _get_common_vocabulary.
    destruct (models st) as [|[i0 m0] rest]; [done|].
    apply (@Sorted_merge_sort _ str_le _ str_le_total).
Qed.

End CommonVocabularyMore.

Lemma common_vocabulary_exact_witness :
  (forall w, w ∈ _get_common_vocabulary Sample.state2
     <-> forall idx m, (idx, m) ∈ models Sample.state2 ->
           w ∈ vocab (heap Sample.state2) m)
  /\ NoDup (_get_common_vocabulary Sample.state2)
  /\ Sorted str_le (_get_common_vocabulary Sample.state2).
Proof.
  apply (common_vocabulary_exact (LIB := Sample.library true true) Sample.state2).
  discriminate.
Defined.

(** ** [train_model] *)

Section TrainMore.
Context {F : Type} {FO : Float64 F} {LIB : Library F}.


End TrainMore.

(** ** [align_models] *)

Section AlignModelsMore.
Context {F : Type} {FO : Float64 F} {LIB : Library F}.

Lemma align_single_model_none (h h' : gmap nat (Word2Vec F)) source target cw :
  _align_single_model h source target cw = (h', None) -> h' = h.
Proof.
  unfold _align_single_model.
  destruct (gather_vectors h source target cw) as [sv tv].
  case_decide; [by intros [= <-]|].
  destruct (_procrustes_align sv tv); [|by intros [= <-]].
  destruct (Word2VecModel_init _ _ _ _); [done|by intros [= <-]].
Qed.

Lemma dict_keys_set_in {V : Type} (d : list (string * V)) k v :
  k ∈ dict_keys d -> dict_keys (dict_set k v d) = dict_keys d.
Proof.
  induction d as [|[k0 v0] d IH]; cbn [dict_keys map fst dict_set].
  - by intros ?%elem_of_nil.
  - intros [->|Hin]%elem_of_cons.
    + by rewrite decide_True.
    + destruct (decide (k = k0)) as [->|Hne]; [done|].
      cbn [map fst]. f_equal. by apply IH.
Qed.


Lemma elem_dict_keys {V : Type} (d : list (string * V)) k v :
  (k, v) ∈ d -> k ∈ dict_keys d.
Proof.
  intros Hin. unfold dict_keys. apply list_elem_of_In, in_map_iff.
  exists (k, v). split; [done|by apply list_elem_of_In].
Qed.

(** One step of the alignment loop either leaves the manager state as it
    is, or rewrites the anchors of the current, non-reference model in
    place and re-binds its index to a wrapper of the same object. *)
Lemma align_step_cases ref rm cw (st : State F) am n i mi :
  (align_step ref rm cw (st, am, n) (i, mi)).1.1 = st
  \/ (i <> ref /\ exists av aligned,
        (align_step ref rm cw (st, am, n) (i, mi)).1.1
        = set_models (dict_set i aligned (models st))
            (set_heap (write_aligned (heap st) (model mi) 0 cw av) st)
        /\ model aligned = model mi /\ index aligned = index mi).
Proof.
  unfold align_step. destruct (decide (i = ref)); [by left|].
  destruct (_align_single_model (heap st) mi rm cw) as [h' [aligned|]] eqn:E.
  - right. split; [done|].
    apply align_single_model_success in E as (av & _ & _ & _ & Hm & Hi & ->).
    by exists av, aligned.
  - left. apply align_single_model_none in E as ->. cbn. apply set_heap_same.
Qed.

(** What one pass of the alignment loop leaves alone. *)
Lemma align_fold_frame (st0 : State F) ref rm cw items (st : State F) am n :
  (forall idx mi, (idx, mi) ∈ items -> idx ∈ dict_keys (models st0)) ->
  dict_keys (models st) = dict_keys (models st0)
  /\ reference_index st = reference_index st0
  /\ files st = files st0
  /\ dom (heap st) = dom (heap st0) ->
  dict_keys (models (foldl (align_step ref rm cw) (st, am, n) items).1.1)
    = dict_keys (models st0)
  /\ reference_index (foldl (align_step ref rm cw) (st, am, n) items).1.1
     = reference_index st0
  /\ files (foldl (align_step ref rm cw) (st, am, n) items).1.1 = files st0
  /\ dom (heap (foldl (align_step ref rm cw) (st, am, n) items).1.1) = dom (heap st0).
Proof.
  revert st am n. induction items as [|[i mi] items IH]; intros st am n Hitems Hst; [done|].
  cbn [foldl].
  assert (Hrest : forall idx mi', (idx, mi') ∈ items -> idx ∈ dict_keys (models st0))
    by (intros ???; eapply Hitems; by apply list_elem_of_further).
  pose proof (align_step_cases ref rm cw st am n i mi) as Hstep.
  destruct (align_step ref rm cw (st, am, n) (i, mi)) as [[st1 am1] n1].
  cbn [fst] in Hstep. apply IH; [done|].
  destruct Hstep as [->|(_ & av & aligned & -> & _ & _)]; [done|].
  destruct Hst as (Hk & Hr & Hf & Hd).
  cbn [models reference_index files heap set_models set_heap].
  rewrite write_aligned_dom. repeat split; try done.
  rewrite dict_keys_set_in; [done|]. rewrite Hk.
  apply (Hitems i mi), list_elem_of_here.
Qed.

(** The reference is read, never written, as long as no other registered
    wrapper shares its gensim object. *)
Lemma align_fold_reference ref (rm : Word2VecModel) cw items (st : State F) am n :
  (forall idx mi, (idx, mi) ∈ items -> idx <> ref -> model mi <> model rm) ->
  dict_get ref (models (foldl (align_step ref rm cw) (st, am, n) items).1.1)
    = dict_get ref (models st)
  /\ heap (foldl (align_step ref rm cw) (st, am, n) items).1.1 !! model rm
     = heap st !! model rm.
Proof.
  revert st am n. induction items as [|[i mi] items IH]; intros st am n Hitems; [done|].
  cbn [foldl].
  assert (Hrest : forall idx mi', (idx, mi') ∈ items -> idx <> ref -> model mi' <> model rm)
    by (intros ????; eapply Hitems; [by apply list_elem_of_further|done]).
  pose proof (align_step_cases ref rm cw st am n i mi) as Hstep.
  destruct (align_step ref rm cw (st, am, n) (i, mi)) as [[st1 am1] n1].
  cbn [fst] in Hstep. destruct (IH st1 am1 n1 Hrest) as [H1 H2]. rewrite H1, H2.
  destruct Hstep as [->|(Hne & av & aligned & -> & _ & _)]; [done|]. cbn.
  split; [by apply dict_get_set_ne|].
  apply write_aligned_other_loc. intros Heq.
  by apply (Hitems i mi (list_elem_of_here _ _)).
Qed.

(** [align_models] answers [True] exactly when the reference index is
    registered; otherwise it changes nothing, not even
    [reference_index]. *)
Theorem align_models_result (ref : string) (st : State F) :
  ((align_models ref st).2 = true <-> ref ∈ dict_keys (models st))
  /\ (ref ∉ dict_keys (models st) -> align_models ref st = (st, false)).
Proof.
  unfold align_models, align_models_loop.
  destruct (dict_get ref (models st)) as [rm|] eqn:E.
  - assert (Hin : ref ∈ dict_keys (models st)).
    { destruct (decide (ref ∈ dict_keys (models st))) as [?|Hnot]; [done|].
      apply dict_get_None in Hnot. congruence. }
    destruct (foldl _ _ _) as [[st' am] n]. cbn. split; [done|by intros []].
  - apply dict_get_None in E. cbn. split; [|done]. split; [done|by intros []%E].
Qed.

(** With a registered reference, alignment keeps the list of slice ids
    (and their order), the files and the set of stored objects, and
    records the reference; and if no other registered wrapper shares the
    reference's gensim object, the reference space comes out exactly as
    it went in. *)
Theorem align_models_frame (ref : string) (rm : Word2VecModel) (st : State F) :
  NoDup (dict_keys (models st)) ->
  dict_get ref (models st) = Some rm ->
  let st' := (align_models ref st).1 in
  dict_keys (models st') = dict_keys (models st)
  /\ reference_index st' = Some ref
  /\ files st' = files st
  /\ dom (heap st') = dom (heap st)
  /\ ((forall idx m, (idx, m) ∈ models st -> idx <> ref -> model m <> model rm) ->
      dict_get ref (models st') = Some rm
      /\ heap st' !! model rm = heap st !! model rm).
Proof.
  intros Hnd Hrm. cbn zeta. unfold align_models, align_models_loop. rewrite Hrm.
  pose proof (align_fold_frame (set_reference_index (Some ref) st) ref rm
    (_get_common_vocabulary (set_reference_index (Some ref) st)) (models st)
    (set_reference_index (Some ref) st) [] 0) as Hframe.
  pose proof (align_fold_reference ref rm
    (_get_common_vocabulary (set_reference_index (Some ref) st)) (models st)
    (set_reference_index (Some ref) st) [] 0) as Href.
  change (models (set_reference_index (Some ref) st)) with (models st) in *.
  destruct (foldl _ _ (models st)) as [[st' am'] n']. cbn [fst snd] in *.
  destruct Hframe as (Hk & Hr & Hf & Hd); [|done|].
  { intros idx mi Hin. by apply elem_dict_keys in Hin. }
  repeat split; try done.
  - by destruct (Href H) as [-> _].
  - by destruct (Href H) as [_ ->].
Qed.

End AlignModelsMore.

Lemma align_models_frame_witness :
  let st' := (align_models (LIB := Sample.library true true) "1990" Sample.state2).1 in
  dict_keys (models st') = dict_keys (models Sample.state2)
  /\ reference_index st' = Some "1990"
  /\ files st' = files Sample.state2
  /\ dom (heap st') = dom (heap Sample.state2)
  /\ ((forall idx m, (idx, m) ∈ models Sample.state2 -> idx <> "1990" ->
         model m <> model Sample.target_model) ->
      dict_get "1990" (models st') = Some Sample.target_model
      /\ heap st' !! model Sample.target_model
         = heap Sample.state2 !! model Sample.target_model).
Proof.
  apply (align_models_frame (LIB := Sample.library true true)
           "1990" Sample.target_model Sample.state2).
  - apply (bool_decide_unpack _). vm_compute. exact I.
  - reflexivity.
Defined.

(** In the two-space sample the alignment does run: the anchors of 2000
    move, the reference does not. *)
Example align_models_sample :
  let st' := (align_models (LIB := Sample.library true true) "1990" Sample.state2).1 in
  get_word_vector (heap st') Sample.source_model "w3" = Some [(25 # 2)%Q]
  /\ get_word_vector (heap st') Sample.target_model "w3" = Some [11%Q].
Proof. vm_compute. split; reflexivity. Qed.

(** ** [train_procrustes] *)

Section ProcrustesRunMore.
Context {F : Type} {FO : Float64 F} {LIB : Library F}.




Lemma train_fold_registers ps papers (st : State F) n idx :
  ((exists m, dict_get idx (models st) = Some m /\ index m = idx)
   \/ exists texts, (idx, texts) ∈ papers
        /\ is_Some (gensim_fit (Tokenizer._preprocess_texts texts) ps)) ->
  exists m, dict_get idx (models (foldl (train_step ps) (st, n) papers).1) = Some m
    /\ index m = idx.
Proof.
  revert st n. induction papers as [|[i texts] papers IH]; intros st n Hor.
  - destruct Hor as [?|(texts & ?%elem_of_nil & _)]; done.
  - cbn [foldl].
    pose proof (train_step_state ps st n i texts) as Hst.
    destruct (train_step ps (st, n) (i, texts)) as [st1 n1]. cbn [fst] in Hst. subst st1.
    apply IH.
    destruct (decide (i = idx)) as [->|Hne].
    + unfold train_model.
      destruct (gensim_fit (Tokenizer._preprocess_texts texts) ps) as [g|] eqn:E.
      * left. cbn. rewrite dict_get_set_eq. eauto.
      * destruct Hor as [?|(texts' & Hin & Hfit)]; [by left|].
        apply elem_of_cons in Hin as [[= <-]|Hin].
        -- rewrite E in Hfit. by destruct Hfit.
        -- right. by exists texts'.
    + destruct Hor as [(m & Hm & Hi)|(texts' & Hin & Hfit)].
      * left. exists m. by rewrite train_model_other.
      * apply elem_of_cons in Hin as [[= ? _]|Hin]; [done|]. right. by exists texts'.
Qed.

(** Every slice that gensim trained is served by the registry after the
    run, under a wrapper carrying its own index. *)
Theorem train_procrustes_registers (papers : list (string * list string))
    (ps : Params) (st : State F) (idx : string) (texts : list string) :
  NoDup (dict_keys (models st)) ->
  (idx, texts) ∈ papers ->
  is_Some (gensim_fit (Tokenizer._preprocess_texts texts) ps) ->
  exists m, dict_get idx (models (train_procrustes papers ps st).1) = Some m
    /\ index m = idx.
Proof.
  intros Hnd Hin Hfit. unfold train_procrustes.
  pose proof (train_fold_registers ps papers st 0 idx
                (or_intror (ex_intro _ texts (conj Hin Hfit)))) as (m & Hm & Hi).
  pose proof (train_fold_NoDup ps papers st 0 Hnd) as Hnd1.
  destruct (foldl (train_step ps) (st, 0) papers) as [st1 n1]. cbn [fst] in *.
  case_decide; [|by exists m].
  destruct (dict_keys (models st1)) as [|ref ks] eqn:Ek; [by exists m|].
  rewrite <- Ek in Hnd1.
  destruct (align_models_keeps ref st1 Hnd1 idx m Hm) as (m' & Hm' & _ & Hi').
  destruct (align_models ref st1) as [st' ok]. cbn [fst] in Hm'.
  exists m'. split; [by destruct ok|congruence].
Qed.

End ProcrustesRunMore.

Lemma train_procrustes_registers_witness :
  exists m,
    dict_get "2000"
      (models (train_procrustes (LIB := Sample.library true true)
                 Sample.cat_dog_papers Sample.params Sample.empty_state).1) = Some m
    /\ index m = "2000".
Proof.
  apply (train_procrustes_registers (LIB := Sample.library true true)
           Sample.cat_dog_papers Sample.params Sample.empty_state
           "2000" ["the dog sat"; "a dog ran"]).
  - apply NoDup_nil_2.
  - apply list_elem_of_further, list_elem_of_here.
  - vm_compute. eexists. reflexivity.
Defined.

(** ** [train_cade] beyond the temporary files *)

Section CompassMore.
Context {F : Type} {FO : Float64 F} {LIB : Library F}.





Lemma model_path_not_under_temp (i : string) : under "temp" (cade_model_path i) = false.
Proof. reflexivity. Qed.





End CompassMore.


(** ** [clear_models] *)

Section ClearMore.
Context {F : Type} {FO : Float64 F} {LIB : Library F}.

(** With a working filesystem [clear_models] returns [True], empties the
    registry and forgets the reference; on disk, everything below
    [models] and [model] is gone and every other file is left as it was.
    When a filesystem call raises it returns [False], but the registry
    has been emptied all the same. *)
Theorem clear_models_effect (st : State F) :
  (clear_models false st).2 = true
  /\ models (clear_models false st).1 = []
  /\ reference_index (clear_models false st).1 = None
  /\ heap (clear_models false st).1 = heap st
  /\ (forall path, under "models" path = true \/ under "model" path = true ->
        files (clear_models false st).1 !! path = None)
  /\ (forall path, under "models" path = false -> under "model" path = false ->
        files (clear_models false st).1 !! path = files st !! path)
  /\ (clear_models true st).2 = false
  /\ models (clear_models true st).1 = []
  /\ reference_index (clear_models true st).1 = None.
Proof.
  unfold clear_models. cbn [fst snd models reference_index heap files
    set_files set_models set_reference_index].
  repeat split.
  - intros path Hp. unfold rmtree. apply map_lookup_filter_None.
    destruct (under "model" path) eqn:E2.
    + right. intros x _. cbn [fst]. by rewrite E2.
    + destruct Hp as [Hp|Hp]; [|done]. left.
      apply map_lookup_filter_None. right. intros x _. cbn [fst]. by rewrite Hp.
  - intros path H1 H2. unfold rmtree.
    destruct (files st !! path) as [x|] eqn:E.
    + apply map_lookup_filter_Some. split; [|done].
      apply map_lookup_filter_Some. by split.
    + apply map_lookup_filter_None. left. apply map_lookup_filter_None. by left.
Qed.

End ClearMore.

(** ** When a compass run succeeds *)

Section CompassSuccess.
Context {F : Type} {FO : Float64 F} {LIB : Library F}.

Lemma dict_set_new {V : Type} (d : list (string * V)) k v :
  k ∉ dict_keys d -> dict_set k v d = d ++ [(k, v)].
Proof.
  induction d as [|[k0 v0] d IH]; cbn [dict_set dict_keys map fst app]; [done|].
  intros [Hne Hnot]%not_elem_of_cons. rewrite decide_False by done.
  by rewrite IH.
Qed.








End CompassSuccess.


(** ** Neighbour analysis *)

Section NeighbourFacts.
Context {F : Type} {NB : Neighbourhood F}.

Lemma rank_fold (similar_words : list (string * F)) (acc : list (Neighbor F)) :
  foldl (fun neighbors ws =>
           neighbors ++ [{| n_word := fst ws; n_similarity := snd ws;
                            n_rank := length neighbors + 1 |}])
        acc similar_words
  = acc ++ imap (fun i ws => {| n_word := fst ws; n_similarity := snd ws;
                                n_rank := length acc + i + 1 |}) similar_words.
Proof.
  revert acc. induction similar_words as [|ws l IH]; intros acc; cbn [foldl imap].
  - by rewrite app_nil_r.
  - rewrite IH, <- app_assoc. cbn [app]. do 2 f_equal.
    + by rewrite Nat.add_0_r.
    + apply imap_ext. intros i x _. cbn. rewrite length_app. cbn. f_equal. lia.
Qed.

(** The formatted neighbours keep gensim's order, words and
    similarities, and are ranked 1, 2, 3, ... without gap. *)
Theorem rank_neighbors_spec (similar_words : list (string * F)) :
  length (rank_neighbors similar_words) = length similar_words
  /\ forall i w s, similar_words !! i = Some (w, s) ->
       rank_neighbors similar_words !! i
       = Some {| n_word := w; n_similarity := s; n_rank := i + 1 |}.
Proof.
  unfold rank_neighbors. rewrite rank_fold. cbn [app length]. split.
  - apply length_imap.
  - intros i w s Hi. rewrite list_lookup_imap, Hi. reflexivity.
Qed.

Lemma neighbor_fold_count (h : gmap nat (Word2Vec F)) word topn
    (items : list (string * Word2VecModel)) reports mww tn :
  (foldl (neighbor_step h word topn) (reports, mww, tn) items).1.2
  = mww + length (filter (fun item : string * Word2VecModel => word ∈ vocab h item.2) items).
Proof.
  revert reports mww tn. induction items as [|[idx m] items IH]; intros reports mww tn.
  - cbn. lia.
  - cbn [foldl]. rewrite filter_cons. cbn [snd]. unfold neighbor_step at 2.
    destruct (decide (word ∈ vocab h m)).
    + destruct (get_most_similar h m word topn); rewrite IH; cbn; lia.
    + by rewrite IH.
Qed.

(** What one iteration stores for its slice does not depend on the
    accumulator. *)
Lemma neighbor_step_report (h : gmap nat (Word2Vec F)) word topn idx m :
  exists r, forall reports mww tn,
    (neighbor_step h word topn (reports, mww, tn) (idx, m)).1.1 = dict_set idx r reports.
Proof.
  unfold neighbor_step. destruct (decide (word ∈ vocab h m)).
  - destruct (get_most_similar h m word topn); eexists; reflexivity.
  - eexists; reflexivity.
Qed.

Lemma neighbor_fold_other (h : gmap nat (Word2Vec F)) word topn
    (items : list (string * Word2VecModel)) acc idx :
  idx ∉ dict_keys items ->
  dict_get idx (foldl (neighbor_step h word topn) acc items).1.1 = dict_get idx acc.1.1.
Proof.
  revert acc. induction items as [|[i m] items IH]; intros [[reports mww] tn] Hnot; [done|].
  cbn [dict_keys map fst] in Hnot. apply not_elem_of_cons in Hnot as [Hne Hnot].
  cbn [foldl]. rewrite IH by done.
  destruct (neighbor_step_report h word topn i m) as [r Hr]. rewrite Hr. cbn.
  by apply dict_get_set_ne.
Qed.

Lemma neighbor_fold_get (h : gmap nat (Word2Vec F)) word topn
    (items : list (string * Word2VecModel)) acc idx m :
  NoDup (dict_keys items) -> (idx, m) ∈ items ->
  dict_get idx (foldl (neighbor_step h word topn) acc items).1.1
  = dict_get idx (neighbor_step h word topn ([], 0, 0) (idx, m)).1.1.
Proof.
  revert acc. induction items as [|[i mi] items IH]; intros [[reports mww] tn] Hnd Hin.
  - by apply elem_of_nil in Hin.
  - cbn [dict_keys map fst] in Hnd. apply NoDup_cons in Hnd as [Hi Hnd]. cbn [foldl].
    apply elem_of_cons in Hin as [[= -> ->]|Hin]; [|by apply IH].
    rewrite neighbor_fold_other by done.
    destruct (neighbor_step_report h word topn i mi) as [r Hr]. rewrite !Hr.
    cbn. rewrite dict_get_set_eq. by rewrite decide_True.
Qed.

Lemma neighbor_fold_keys (h : gmap nat (Word2Vec F)) word topn
    (items : list (string * Word2VecModel)) acc :
  NoDup (dict_keys acc.1.1 ++ dict_keys items) ->
  dict_keys (foldl (neighbor_step h word topn) acc items).1.1
  = dict_keys acc.1.1 ++ dict_keys items.
Proof.
  revert acc. induction items as [|[i mi] items IH]; intros [[reports mww] tn] Hnd.
  - cbn. by rewrite app_nil_r.
  - cbn [foldl]. cbn [fst dict_keys map] in Hnd.
    assert (Hnew : i ∉ dict_keys reports).
    { intros Hin. apply NoDup_app in Hnd as (_ & Hdisj & _).
      apply (Hdisj i Hin), list_elem_of_here. }
    destruct (neighbor_step_report h word topn i mi) as [r Hr].
    destruct (neighbor_step h word topn (reports, mww, tn) (i, mi)) as [[rep1 a1] b1] eqn:E.
    specialize (Hr reports mww tn). rewrite E in Hr. cbn in Hr. subst rep1.
    rewrite IH; cbn [fst]; rewrite dict_set_new by done; unfold dict_keys;
      rewrite map_app; cbn [map fst].
    + by rewrite <- app_assoc.
    + rewrite <- app_assoc. exact Hnd.
Qed.

(** The analysis is absent exactly when no registered space knows the
    word (in particular when the registry is empty). *)
Theorem neighbor_analysis_none_iff (st : State F) (word : string) (topn : nat) :
  get_neighbor_analysis_data st word topn = None
  <-> forall idx m, (idx, m) ∈ models st -> word ∉ vocab (heap st) m.
Proof.
  unfold get_neighbor_analysis_data.
  destruct (models st) as [|item ms] eqn:E.
  - split; [|done]. by intros _ idx m ?%elem_of_nil.
  - rewrite <- E. clear E.
    pose proof (neighbor_fold_count (heap st) word topn (models st) [] 0 0) as Hc.
    destruct (foldl _ _ (models st)) as [[reports mww] tn]. cbn [fst snd plus] in Hc.
    subst mww. split.
    + case_decide as Hpos; [done|]. intros _ idx m Hin Hw.
      apply Hpos. destruct (filter _ (models st)) eqn:Ef; [|cbn; lia].
      apply (proj1 (filter_nil_iff _ (models st))) in Ef. destruct Ef.
      apply Exists_exists. by exists (idx, m).
    + intros Hall. rewrite decide_False; [done|].
      rewrite (proj2 (filter_nil_iff _ (models st))); [cbn; lia|].
      intros ([idx m] & Hin & Hw)%Exists_exists. by apply (Hall idx m).
Qed.

(** When the analysis is present it has one report per registered slice,
    in registry order; the summary counts the slices and those knowing
    the word. A slice not knowing the word is reported as such; a slice
    knowing it gets the ranked neighbours gensim returned, or, when
    gensim raised, an error report (and is still counted as knowing the
    word). *)
Theorem neighbor_analysis_reports (st : State F) (word : string) (topn : nat)
    (d : NeighborData F) :
  NoDup (dict_keys (models st)) ->
  get_neighbor_analysis_data st word topn = Some d ->
  nd_word d = word
  /\ dict_keys (nd_models d) = dict_keys (models st)
  /\ nd_total_models d = length (models st)
  /\ nd_models_with_word d
     = length (filter (fun item : string * Word2VecModel =>
                         word ∈ vocab (heap st) item.2) (models st))
  /\ 0 < nd_models_with_word d
  /\ forall idx m, (idx, m) ∈ models st ->
       (word ∉ vocab (heap st) m ->
          dict_get idx (nd_models d)
          = Some (WordMissing ("Word '" +:+ word +:+ "' not found in vocabulary")))
       /\ (word ∈ vocab (heap st) m -> forall similar_words,
             get_most_similar (heap st) m word topn = Returned similar_words ->
             dict_get idx (nd_models d)
             = Some (WordFound (rank_neighbors similar_words)
                       (vocab_size m) (vector_dim m) (created_at m)))
       /\ (word ∈ vocab (heap st) m -> forall msg,
             get_most_similar (heap st) m word topn = Raised msg ->
             dict_get idx (nd_models d)
             = Some (WordMissing ("Error retrieving neighbors: " +:+ msg))).
Proof.
  intros Hnd. unfold get_neighbor_analysis_data.
  destruct (models st) as [|item ms] eqn:E; [done|]. rewrite <- E in *. clear E.
  pose proof (neighbor_fold_count (heap st) word topn (models st) [] 0 0) as Hc.
  pose proof (neighbor_fold_keys (heap st) word topn (models st) ([], 0, 0) Hnd) as Hk.
  pose proof (fun idx m => neighbor_fold_get (heap st) word topn (models st)
                             ([], 0, 0) idx m Hnd) as Hg.
  destruct (foldl _ _ (models st)) as [[reports mww] tn]. cbn [fst snd plus app] in *.
  case_decide as Hpos; [|done]. intros [= <-]. cbn.
  repeat split; try done; try lia.
  - intros Hw. rewrite (Hg idx m H). unfold neighbor_step.
    rewrite decide_False by done. cbn. by rewrite decide_True.
  - intros Hw l Hl. rewrite (Hg idx m H). unfold neighbor_step.
    rewrite decide_True by done. rewrite Hl. cbn. by rewrite decide_True.
  - intros Hw msg Hl. rewrite (Hg idx m H). unfold neighbor_step.
    rewrite decide_True by done. rewrite Hl. cbn. by rewrite decide_True.
Qed.

(** The endpoint answers 400 exactly when the registry is empty, 404
    exactly when the registry is non-empty and no space knows the word,
    and the analysis otherwise. *)
Theorem get_neighbor_analysis_cases (word : string) (topn : nat) (app : App F) :
  match get_neighbor_analysis word topn app with
  | NeighborError code _ =>
      (code = 400 /\ models (model_manager app) = [])
      \/ (code = 404 /\ models (model_manager app) <> []
          /\ forall idx m, (idx, m) ∈ models (model_manager app) ->
               word ∉ vocab (heap (model_manager app)) m)
  | NeighborAnalysis d =>
      get_neighbor_analysis_data (model_manager app) word topn = Some d
      /\ exists idx m, (idx, m) ∈ models (model_manager app)
           /\ word ∈ vocab (heap (model_manager app)) m
  end.
Proof.
  unfold get_neighbor_analysis.
  destruct (models (model_manager app)) as [|item ms] eqn:E; [by left|].
  rewrite <- E.
  destruct (get_neighbor_analysis_data (model_manager app) word topn) as [d|] eqn:Ed.
  - split; [done|].
    destruct (decide (Exists (fun item : string * Word2VecModel =>
                 word ∈ vocab (heap (model_manager app)) item.2)
               (models (model_manager app)))) as [HE|HE].
    + apply Exists_exists in HE as ([idx m] & Hin & Hw). by exists idx, m.
    + assert (Hnone : get_neighbor_analysis_data (model_manager app) word topn = None).
      { apply neighbor_analysis_none_iff. intros idx m Hin Hw. apply HE.
        apply Exists_exists. by exists (idx, m). }
      congruence.
  - right. split; [done|]. split; [by rewrite E|].
    exact (proj1 (neighbor_analysis_none_iff _ word topn) Ed).
Qed.

End NeighbourFacts.

Section NeighbourSample.
Import Sample SampleNeighbours.

Lemma neighbor_analysis_reports_witness :
  exists d,
    get_neighbor_analysis_data (NB := neighbourhood) state2 "extra" 3 = Some d
    /\ dict_keys (nd_models d) = ["1990"; "2000"]
    /\ nd_total_models d = 2
    /\ nd_models_with_word d = 1
    /\ dict_get "1990" (nd_models d)
       = Some (WordMissing "Word 'extra' not found in vocabulary").
Proof.
  destruct (get_neighbor_analysis_data (NB := neighbourhood) state2 "extra" 3)
    as [d|] eqn:Ed; [|vm_compute in Ed; discriminate Ed].
  exists d. split; [done|].
  destruct (neighbor_analysis_reports (NB := neighbourhood) state2 "extra" 3 d)
    as (_ & Hk & Ht & Hw & _ & Hrep); [|done|].
  { apply (bool_decide_unpack _). vm_compute. exact I. }
  split; [exact Hk|]. split; [exact Ht|]. split; [rewrite Hw; vm_compute; reflexivity|].
  destruct (Hrep "1990" target_model) as (Hmiss & _ & _); [apply list_elem_of_here|].
  apply Hmiss. apply (bool_decide_unpack _). vm_compute. exact I.
Defined.

Example neighbor_analysis_sample :
  (fun d => (nd_models_with_word d, nd_total_neighbors d,
             dict_get "2000" (nd_models d)))
    <$> get_neighbor_analysis_data (NB := neighbourhood) state2 "extra" 2
  = Some (1, 2, Some (WordFound
                        [{| n_word := "w7"; n_similarity := 1%Q; n_rank := 1 |};
                         {| n_word := "w3"; n_similarity := 1%Q; n_rank := 2 |}]
                        11 1 0)).
Proof. vm_compute. reflexivity. Qed.

End NeighbourSample.

(** ** The grouping of papers and the life of a training job *)

Section JobFacts.
Context {F : Type} {FO : Float64 F} {LIB : Library F}.

Lemma group_fold (papers : list Paper) (d : list (string * list string)) (idx : string) :
  dict_get idx
    (foldl (fun papers_by_index paper =>
              match dict_get (paper_index paper) papers_by_index with
              | None => dict_set (paper_index paper) [paper_text paper] papers_by_index
              | Some texts =>
                  dict_set (paper_index paper) (texts ++ [paper_text paper]) papers_by_index
              end) d papers)
  = match dict_get idx d, texts_of idx papers with
    | None, [] => None
    | None, t :: ts => Some (t :: ts)
    | Some texts, more => Some (texts ++ more)
    end.
Proof.
  revert d. induction papers as [|p papers IH]; intros d.
  - cbn. destruct (dict_get idx d); [by rewrite app_nil_r|done].
  - cbn [foldl]. rewrite IH. unfold texts_of. rewrite filter_cons.
    destruct (decide (paper_index p = idx)) as [<-|Hne].
    + cbn [map]. destruct (dict_get (paper_index p) d) as [texts|] eqn:E.
      * rewrite dict_get_set_eq. by rewrite <- app_assoc.
      * rewrite dict_get_set_eq. done.
    + assert (Hsame : forall v, dict_get idx (dict_set (paper_index p) v d) = dict_get idx d)
        by (intros v; apply dict_get_set_ne; congruence).
      destruct (dict_get (paper_index p) d); by rewrite Hsame.
Qed.

Lemma group_fold_NoDup (papers : list Paper) (d : list (string * list string)) :
  NoDup (dict_keys d) ->
  NoDup (dict_keys
    (foldl (fun papers_by_index paper =>
              match dict_get (paper_index paper) papers_by_index with
              | None => dict_set (paper_index paper) [paper_text paper] papers_by_index
              | Some texts =>
                  dict_set (paper_index paper) (texts ++ [paper_text paper]) papers_by_index
              end) d papers)).
Proof.
  revert d. induction papers as [|p papers IH]; intros d Hnd; [done|].
  cbn [foldl]. apply IH. destruct (dict_get (paper_index p) d); by apply dict_set_NoDup.
Qed.

(** Grouping loses nothing and mixes nothing: the slice ids are distinct,
    and each is bound to exactly the texts of the papers carrying it, in
    upload order; an index carried by no paper is not a slice. *)
Theorem group_papers_spec (papers : list Paper) :
  NoDup (dict_keys (group_papers papers))
  /\ forall idx,
       dict_get idx (group_papers papers)
       = match texts_of idx papers with
         | [] => None
         | t :: ts => Some (t :: ts)
         end.
Proof.
  unfold group_papers. split.
  - apply group_fold_NoDup. apply NoDup_nil_2.
  - intros idx. by rewrite group_fold.
Qed.

(** A request is refused (always with code 400, and without any effect)
    exactly when the method name is unknown or there is no paper;
    otherwise it is accepted, the session's record is (re)set to
    [running] at step 0 of 4, and one task is queued behind those
    already waiting. *)
Theorem train_models_cases (ps : Params) (method : string) (papers : list Paper)
    (sid : string) (app : App F) :
  match (train_models ps method papers sid app).2 with
  | HTTPException code _ =>
      code = 400
      /\ (method ∉ ["procrustes"; "compass"] \/ papers = [])
      /\ (train_models ps method papers sid app).1 = app
  | TrainingStarted indexes sid' method' =>
      method ∈ ["procrustes"; "compass"] /\ papers <> []
      /\ indexes = dict_keys (group_papers papers) /\ sid' = sid /\ method' = method
      /\ get_training_status sid (train_models ps method papers sid app).1
         = StatusReport sid "running" (progress initial_status) None
      /\ (forall other, other <> sid ->
            get_training_status other (train_models ps method papers sid app).1
            = get_training_status other app)
      /\ background_tasks (train_models ps method papers sid app).1
         = background_tasks app
           ++ [{| task_papers := group_papers papers; task_method := method;
                  task_params := ps; task_session := sid |}]
      /\ model_manager (train_models ps method papers sid app).1 = model_manager app
  | ModelsCleared _ _ => False
  end.
Proof.
  unfold train_models.
  destruct (decide (method ∈ ["procrustes"; "compass"])) as [Hm|Hm].
  - rewrite bool_decide_eq_true_2 by done. cbn [negb].
    destruct papers as [|p papers]; cbn [fst snd]; [by auto|].
    unfold get_training_status. cbn. rewrite lookup_insert_eq.
    repeat split; try done. intros other Hne. by rewrite lookup_insert_ne.
  - rewrite bool_decide_eq_false_2 by done. cbn. auto.
Qed.

(** Running a queued task whose session has a record ends the job: the
    registry is the one the training function left, the record is
    [completed] when that function returned [True] and [failed] with the
    error text [Training process failed] otherwise, and in both cases the
    progress shown is step 4 of 4, [completed]. No other session's record
    and no queued task is touched. *)
Theorem background_task_terminal (task : Task) (app : App F) :
  is_Some (training_status app !! task_session task) ->
  let run :=
    if decide (task_method task = "compass")
    then train_cade (task_papers task) (task_params task) (model_manager app)
    else train_procrustes (task_papers task) (task_params task) (model_manager app) in
  let app' := _train_and_align_models_background task app in
  model_manager app' = run.1
  /\ (exists err,
        get_training_status (task_session task) app'
        = StatusReport (task_session task)
            (if run.2 then "completed" else "failed") progress_completed err
        /\ (run.2 = false -> err = Some "Training process failed"))
  /\ (forall other, other <> task_session task ->
        get_training_status other app' = get_training_status other app)
  /\ background_tasks app' = background_tasks app.
Proof.
  intros [s Hs] run app'. subst app'. unfold _train_and_align_models_background.
  rewrite Hs. fold run. destruct run as [st success].
  cbn [fst snd model_manager background_tasks]. split; [done|]. split.
  - unfold get_training_status. cbn. rewrite lookup_insert_eq.
    destruct success; eexists; split; try reflexivity; done.
  - split; [|done]. intros other Hne. unfold get_training_status. cbn.
    by rewrite lookup_insert_ne.
Qed.

(** A session that never submitted is reported as not found, before and
    after any other session's request and job. *)
Theorem training_status_not_found (ps : Params) (method : string)
    (papers : list Paper) (sid other : string) (app : App F) :
  training_status app !! other = None -> other <> sid ->
  get_training_status other app = StatusNotFound other
  /\ get_training_status other
       (run_background (train_models ps method papers sid app).1)
     = StatusNotFound other.
Proof.
  intros Hnone Hne. unfold get_training_status at 1. rewrite Hnone. split; [done|].
  assert (Hkeep : forall a : App F, training_status a !! other = None ->
            training_status (run_background a) !! other = None).
  { intros a Ha. unfold run_background. destruct (background_tasks a) as [|t ts]; [done|].
    unfold _train_and_align_models_background. cbn [training_status].
    destruct (training_status a !! task_session t) eqn:Et; [|done].
    destruct (if decide (task_method t = "compass") then _ else _) as [st success].
    cbn. rewrite lookup_insert_ne; [done|]. intros <-. congruence. }
  unfold get_training_status. rewrite Hkeep; [done|].
  unfold train_models. destruct (negb _); [done|].
  destruct papers; [done|]. cbn. by rewrite lookup_insert_ne.
Qed.

End JobFacts.

Section JobSample.
Import Sample.

Lemma background_task_terminal_witness :
  let task := {| task_papers := cat_dog_papers; task_method := "procrustes";
                 task_params := params; task_session := "s1" |} in
  let app := (train_models params "procrustes"
                [{| paper_index := "1990"; paper_text := "the cat sat" |}]
                "s1" empty_app).1 in
  exists err,
    get_training_status (task_session task)
      (_train_and_align_models_background (LIB := library true true) task app)
    = StatusReport "s1" "completed" progress_completed err.
Proof.
  intros task app.
  destruct (background_task_terminal (LIB := library true true) task app)
    as (_ & (err & Herr & _) & _).
  - vm_compute. eexists. reflexivity.
  - exists err. exact Herr.
Defined.

Lemma training_status_not_found_witness :
  get_training_status "s2" empty_app = StatusNotFound "s2"
  /\ get_training_status "s2"
       (run_background (LIB := library true true)
          (train_models params "procrustes" one_paper "s1" empty_app).1)
     = StatusNotFound "s2".
Proof.
  apply (training_status_not_found (LIB := library true true)
           params "procrustes" one_paper "s1" "s2" empty_app);
    [reflexivity|discriminate].
Defined.

End JobSample.

(** ** The single-session gate *)

Section SessionFacts.

Lemma create_session_size new_id now mgr :
  size (sessions mgr) <= 1 -> size (sessions (create_session new_id now mgr).1) <= 1.
Proof.
  intros Hs. unfold create_session. case_decide as Hpos; [done|]. cbn.
  rewrite map_size_insert. destruct (sessions mgr !! new_id); cbn; lia.
Qed.

Lemma is_session_valid_size sid now f mgr db :
  size (sessions mgr) <= 1 ->
  size (sessions (is_session_valid sid now f mgr db).1.1) <= 1.
Proof.
  intros Hs. unfold is_session_valid. destruct (sessions mgr !! sid) eqn:E; [|done].
  case_decide; [|done]. cbn. rewrite map_size_delete, E. cbn. lia.
Qed.

Lemma terminate_session_size sid f mgr db :
  size (sessions mgr) <= 1 ->
  size (sessions (terminate_session sid f mgr db).1.1) <= 1.
Proof.
  intros Hs. unfold terminate_session. destruct (sessions mgr !! sid) eqn:E; [|done].
  cbn. rewrite map_size_delete, E. cbn. lia.
Qed.

Lemma get_user_session_id_size header new_id t1 t2 f mgr db :
  size (sessions mgr) <= 1 ->
  size (sessions (get_user_session_id header new_id t1 t2 f mgr db).1.1) <= 1.
Proof.
  intros Hs. unfold get_user_session_id.
  assert (Hnew : size (sessions
            (if is_system_available mgr then create_session new_id t1 mgr
             else (mgr, None)).1) <= 1).
  { destruct (is_system_available mgr); [by apply create_session_size|done]. }
  destruct (if is_system_available mgr then create_session new_id t1 mgr else (mgr, None))
    as [mgrn sidn].
  assert (Hcheck : forall m (o : option string), size (sessions m) <= 1 ->
    size (sessions
      (match o with
       | None => (m, db, SessionHTTPException 409)
       | Some sid =>
           let '(mgr2, db2, valid) := is_session_valid sid t2 f m db in
           if valid then (mgr2, db2, SessionId sid)
           else (mgr2, db2, SessionHTTPException 401)
       end).1.1) <= 1).
  { intros m [sid|] Hm; [|done].
    pose proof (is_session_valid_size sid t2 f m db Hm) as Hv.
    destruct (is_session_valid sid t2 f m db) as [[m2 d2] [|]]; done. }
  destruct header as [s|]; [destruct (Tokenizer.is_empty s)|].
  - exact (Hcheck mgrn sidn Hnew).
  - exact (Hcheck mgr (Some s) Hs).
  - exact (Hcheck mgrn sidn Hnew).
Qed.

(** However the requests arrive, the manager never holds two sessions:
    starting with at most one, every sequence of session requests leaves
    at most one. *)
Theorem single_session_invariant (reqs : list SessionRequest)
    (s : SessionManager * Database) :
  size (sessions s.1) <= 1 ->
  size (sessions (foldl (fun s req => serve req s) s reqs).1) <= 1.
Proof.
  revert s. induction reqs as [|req reqs IH]; intros [mgr db] Hs; [done|].
  cbn [foldl]. apply IH. cbn [fst] in Hs. destruct req; cbn [serve].
  - cbn. by apply create_session_size.
  - by apply is_session_valid_size.
  - by apply terminate_session_size.
  - cbn. etransitivity; [apply map_size_filter|done].
  - by apply get_user_session_id_size.
Qed.




(** A session obtained without header on a free system lasts exactly
    [session_duration] seconds from its creation: it is valid at every
    instant up to and including its expiry and invalid afterwards; and
    terminating it brings the manager back to where it was. *)
Theorem new_session_lifetime (new_id : string) (now_create now_check : nat)
    (mgr : SessionManager) (db : Database) :
  sessions mgr = ∅ ->
  now_check <= now_create + session_duration mgr ->
  let r := get_user_session_id None new_id now_create now_check false mgr db in
  r.2 = SessionId new_id
  /\ r.1.2 = db
  /\ sessions r.1.1
     = {[ new_id := {| s_created_at := now_create;
                       s_expires_at := now_create + session_duration mgr |} ]}
  /\ (forall t f d, (is_session_valid new_id t f r.1.1 d).2
                    = bool_decide (t <= now_create + session_duration mgr))
  /\ (forall f d, (terminate_session new_id f r.1.1 d).1.1 = mgr
                  /\ (terminate_session new_id f r.1.1 d).2 = true).
Proof.
  intros Hempty Hle r.
  assert (Hr : r = (set_sessions
                      {[ new_id := {| s_created_at := now_create;
                                      s_expires_at := now_create + session_duration mgr |} ]}
                      mgr, db, SessionId new_id)).
  { subst r. unfold get_user_session_id, is_system_available, create_session.
    rewrite Hempty, map_size_empty. rewrite bool_decide_eq_true_2 by done.
    rewrite decide_False by lia. rewrite insert_empty.
    unfold is_session_valid. cbn [sessions set_sessions].
    rewrite lookup_singleton_eq. cbn [s_expires_at]. by rewrite decide_False by lia. }
  rewrite Hr. clear Hr r. cbn [fst snd sessions set_sessions].
  split; [done|]. split; [done|]. split; [done|]. split.
  - intros t f d. unfold is_session_valid. cbn [sessions set_sessions].
    rewrite lookup_singleton_eq. cbn [s_expires_at].
    case_decide; cbn [snd]; symmetry;
      [apply bool_decide_eq_false_2|apply bool_decide_eq_true_2]; lia.
  - intros f d. unfold terminate_session. cbn [sessions set_sessions].
    rewrite lookup_singleton_eq. cbn [fst snd sessions set_sessions].
    rewrite delete_singleton_eq. split; [|done].
    destruct mgr as [dur ss]. cbn in *. by subst.
Qed.

End SessionFacts.

Lemma single_session_invariant_witness :
  size (sessions
          (foldl (fun s req => serve req s)
             ({| session_duration := 1800; sessions := ∅ |},
              {| db_papers := Sample.one_paper; db_topics := []; db_terms := [] |})
             [ReqDependency None "a" 0 1 false; ReqCreate "b" 5;
              ReqValid "a" 2000 false; ReqDependency (Some "a") "c" 2001 2002 false;
              ReqDependency None "c" 2003 2004 false]).1) <= 1.
Proof.
  apply (single_session_invariant _ (_, _)). cbn. rewrite map_size_empty. lia.
Defined.


Lemma new_session_lifetime_witness :
  (get_user_session_id None "a" 0 1 false
     {| session_duration := 1800; sessions := ∅ |}
     {| db_papers := []; db_topics := []; db_terms := [] |}).2 = SessionId "a".
Proof.
  destruct (new_session_lifetime "a" 0 1
              {| session_duration := 1800; sessions := ∅ |}
              {| db_papers := []; db_topics := []; db_terms := [] |}) as [Hid _].
  - reflexivity.
  - cbn. lia.
  - exact Hid.
Defined.

(** ** [format_term] *)

Section FormatTermFacts.
Import Tokenizer.

Lemma mem_WS (c : ascii) : mem c WS = is_space c.
Proof. destruct c as [[] [] [] [] [] [] [] []]; vm_compute; reflexivity. Qed.

Lemma append_snoc (a b : string) (c : ascii) :
  (a +:+ String c EmptyString) +:+ b = a +:+ String c b.
Proof.
  induction a as [|x a IH]; [done|].
  change (String x ((a +:+ String c EmptyString) +:+ b) = String x (a +:+ String c b)).
  by rewrite IH.
Qed.

Lemma append_empty_r (a : string) : a +:+ EmptyString = a.
Proof.
  induction a as [|x a IH]; [done|].
  change (String x (a +:+ EmptyString) = String x a). by rewrite IH.
Qed.

Lemma is_empty_app (a b : string) : is_empty (a +:+ b) = is_empty a && is_empty b.
Proof. by destruct a. Qed.

(** A text without separator is one token. *)
Lemma split_from_single (s cur : string) :
  all_chars (fun c => negb (is_space c)) s = true ->
  is_empty (cur +:+ s) = false ->
  split_from cur s = [cur +:+ s].
Proof.
  revert cur. induction s as [|c s IH]; intros cur Hs Hne; cbn [split_from].
  - rewrite append_empty_r in *. by rewrite Hne.
  - cbn [all_chars] in Hs. apply andb_true_iff in Hs as [Hc Hs].
    apply negb_true_iff in Hc. rewrite Hc.
    rewrite IH; [by rewrite append_snoc|done|].
    rewrite append_snoc. rewrite is_empty_app. cbn. apply andb_false_r.
Qed.

Lemma split_single (s : string) :
  all_chars (fun c => negb (is_space c)) s = true -> is_empty s = false ->
  split s = [s].
Proof. intros Hs Hne. unfold split. by rewrite split_from_single. Qed.

Lemma lstrip_nonspace (s : string) :
  all_chars (fun c => negb (is_space c)) s = true -> lstrip WS s = s.
Proof.
  destruct s as [|c s]; [done|]. cbn [all_chars lstrip].
  intros [Hc _]%andb_true_iff. apply negb_true_iff in Hc. by rewrite mem_WS, Hc.
Qed.

Lemma rstrip_nonspace (s : string) :
  all_chars (fun c => negb (is_space c)) s = true -> rstrip WS s = s.
Proof.
  induction s as [|c s IH]; [done|]. cbn [all_chars rstrip].
  intros [Hc Hs]%andb_true_iff. apply negb_true_iff in Hc.
  by rewrite IH, mem_WS, Hc, andb_false_r.
Qed.

Lemma strip_nonspace (s : string) :
  all_chars (fun c => negb (is_space c)) s = true -> strip WS s = s.
Proof. intros Hs. unfold strip. by rewrite (lstrip_nonspace _ Hs), (rstrip_nonspace _ Hs). Qed.

(** The tokens of [split] are non-empty. *)
Lemma split_from_nonempty (s cur t : string) :
  t ∈ split_from cur s -> is_empty t = false.
Proof.
  revert cur. induction s as [|c s IH]; intros cur Ht; cbn [split_from] in Ht.
  - destruct (is_empty cur) eqn:E; [by apply elem_of_nil in Ht|].
    apply list_elem_of_singleton in Ht. by subst.
  - destruct (is_space c).
    + destruct (is_empty cur) eqn:E; [by apply (IH EmptyString)|].
      apply elem_of_cons in Ht as [->|Ht]; [done|by apply (IH EmptyString)].
    + by apply (IH (cur +:+ String c EmptyString)).
Qed.

Lemma split_nonspace (s t : string) :
  t ∈ split s -> all_chars (fun c => negb (is_space c)) t = true.
Proof.
  apply (split_from_chars _ s EmptyString t); [done|].
  induction s as [|c s IH]; cbn; [done|]. rewrite IH. by destruct (is_space c).
Qed.

Lemma concat_nonspace (words : list string) :
  Forall (fun w => all_chars (fun c => negb (is_space c)) w = true) words ->
  all_chars (fun c => negb (is_space c)) (String.concat "_" words) = true.
Proof.
  induction words as [|w [|w' ws] IH]; intros Hall; [done| |].
  - cbn. by inversion Hall.
  - change (String.concat "_" (w :: w' :: ws))
      with (w +:+ "_" +:+ String.concat "_" (w' :: ws)).
    inversion Hall as [|? ? Hw Hrest]; subst.
    rewrite !all_chars_app, Hw, (IH Hrest). reflexivity.
Qed.

(** What [format_term] answers. The empty text gives [None]; more than
    three words raise; two or three words are joined by underscores,
    giving a text without whitespace; anything else, including a text of
    blanks only and a single word with blanks around it, comes back
    unchanged. And formatting is idempotent: whatever it returns is
    returned again unchanged. *)
Theorem format_term_spec (term : string) :
  match format_term term with
  | FormatNone => term = EmptyString
  | FormatValueError _ => 3 < length (split (strip WS term))
  | Formatted t =>
      term <> EmptyString
      /\ ((length (split (strip WS term)) <= 1 /\ t = term)
          \/ (2 <= length (split (strip WS term)) <= 3
              /\ t = String.concat "_" (split (strip WS term))
              /\ all_chars (fun c => negb (is_space c)) t = true))
      /\ format_term t = Formatted t
  end.
Proof.
  unfold format_term at 1. destruct term as [|c0 s0] eqn:Et; [done|]. rewrite <- Et.
  cbn [is_empty].
  assert (Hne : term <> EmptyString) by (by subst).
  assert (Hfe : is_empty term = false) by (by subst).
  clear Et. rewrite Hfe.
  destruct (decide (3 < length (split (strip WS term)))) as [H3|H3]; [done|].
  destruct (decide (1 < length (split (strip WS term)))) as [H1|H1].
  - assert (Hns : all_chars (fun c => negb (is_space c))
                    (String.concat "_" (split (strip WS term))) = true).
    { apply concat_nonspace, Forall_forall. intros w Hw. by apply split_nonspace in Hw. }
    assert (Hnonempty : is_empty (String.concat "_" (split (strip WS term))) = false).
    { destruct (split (strip WS term)) as [|w [|w' ws]] eqn:E; cbn in H1; try lia.
      change (String.concat "_" (w :: w' :: ws))
        with (w +:+ "_" +:+ String.concat "_" (w' :: ws)).
      rewrite is_empty_app. cbn. apply andb_false_r. }
    split; [done|]. split; [right; repeat split; [lia|lia|done]|].
    unfold format_term. rewrite Hnonempty.
    rewrite (strip_nonspace _ Hns).
    rewrite (split_single _ Hns Hnonempty). cbn [length].
    rewrite decide_False by lia. by rewrite decide_False by lia.
  - split; [done|]. split; [left; split; [lia|done]|].
    unfold format_term. rewrite Hfe.
    rewrite decide_False by done. by rewrite decide_False by done.
Qed.

Example format_term_samples :
  format_term "  climate   change " = Formatted "climate_change"
  /\ format_term " cat " = Formatted " cat "
  /\ format_term "   " = Formatted "   "
  /\ format_term "a b c d" = FormatValueError "Please enter a term with 1 to 3 words only.".
Proof. repeat split; vm_compute; reflexivity. Qed.

End FormatTermFacts.

